(** * aprl.envs.multi_agent: adapters for multi-agent environments

    A shallow embedding of [src/aprl/envs/multi_agent.py] and the properties
    of its tuple helpers, the tuple/dict bridge, [flatten_space],
    [FlattenMultiEnv], [CurryEnv] and the vectorised constructors.

    Conventions of the embedding:
    - a Python call that may raise returns a [result]; the exception is the
      [Err] payload;
    - Python tuples and lists of per-agent values are Rocq lists; list
      indices are [Z], with Python's treatment of negative indices;
    - a list object that a callee mutates lives in a [store] and is passed
      by reference ([loc]);
    - objects with mutable attributes are records, methods return the
      updated record. *)

From stdpp Require Import base option list numbers gmap.

Local Open Scope Z_scope.

(** ** Exceptions and fallible computations *)

Inductive exn :=
  | NameError
  | TypeError
  | ValueError
  | IndexError
  | AssertionError
  | AttributeError
  | NotImplementedError
  | KeyError (key : Z)
  | KeyErrorEmptySet
  | Raised (code : nat).

Inductive result (A : Type) :=
  | Ok (a : A)
  | Err (e : exn).
Arguments Ok {A} a.
Arguments Err {A} e.

#[global] Instance exn_eq_dec : EqDecision exn.
Proof. solve_decision. Defined.

#[global] Instance result_ret : MRet result := @Ok.
#[global] Instance result_bind : MBind result :=
  λ A B f m, match m with Ok a => f a | Err e => Err e end.

Definition is_Ok {A} (r : result A) : Prop := ∃ a, r = Ok a.
Definition is_Err {A} (r : result A) : Prop := ∃ e, r = Err e.

(** [assert c] *)
Definition py_assert (c : bool) : result () :=
  if c then Ok () else Err AssertionError.

(** ** Python sequence primitives *)

(** [xs[i]] for [i] produced by [range]. *)
Definition getitem {A} (xs : list A) (i : nat) : result A :=
  match xs !! i with
  | Some x => Ok x
  | None => Err IndexError
  end.

(** Index normalisation shared by [list.pop] and subscripting: a negative
    index counts from the end. *)
Definition py_index (n : nat) (i : Z) : Z :=
  if i <? 0 then i + Z.of_nat n else i.

(** [output.pop(i)]: the list without position [i], and the element. The
    index is one that fits a machine word ([fits_ssize_t] below), as every
    index within a list does; Python refuses any other index with
    [OverflowError] before it looks at the list, and that path is not
    described here. *)
Definition list_pop {A} (l : list A) (i : Z) : result (list A * A) :=
  let j := py_index (length l) i in
  if j <? 0 then Err IndexError
  else match l !! Z.to_nat j with
       | Some x => Ok (delete (Z.to_nat j) l, x)
       | None => Err IndexError
       end.

(** [l.insert(i, x)] for an index that fits a machine word ([fits_ssize_t]
    below): the position is clamped to the list, and the call does not
    raise. Python refuses any other index with [OverflowError] and leaves
    the list as it is; that path is not described here. *)
Definition list_insert_at {A} (i : Z) (x : A) (l : list A) : list A :=
  let n := Z.of_nat (length l) in
  let j := if i <? 0 then Z.max 0 (i + n) else Z.min i n in
  take (Z.to_nat j) l ++ x :: drop (Z.to_nat j) l.

Fixpoint enumerate_from {A} (i : Z) (l : list A) : list (Z * A) :=
  match l with
  | [] => []
  | x :: l => (i, x) :: enumerate_from (i + 1) l
  end.

(** [enumerate(l)] *)
Definition enumerate {A} (l : list A) : list (Z * A) := enumerate_from 0 l.

(** [min(keys)] and [max(keys)]: [ValueError] on an empty sequence. *)
Definition py_min (ks : list Z) : result Z :=
  match ks with
  | [] => Err ValueError
  | k :: ks => Ok (foldl Z.min k ks)
  end.

Definition py_max (ks : list Z) : result Z :=
  match ks with
  | [] => Err ValueError
  | k :: ks => Ok (foldl Z.max k ks)
  end.

(** [_tuple_pop(input, i)] *)
Definition _tuple_pop {A} (input : list A) (i : Z) : result (list A * A) :=
  let output := input in
  '(output, elt) ← list_pop output i;
  Ok (output, elt).

(** [tuple_transpose(xs)] *)
Definition tuple_transpose {A} (xs : list (list A)) : result (list (list A)) :=
  x0 ← getitem xs 0;
  let inner_len := length x0 in
  _ ← mapM (λ x, py_assert (bool_decide (length x = inner_len))) xs;
  mapM (λ i, mapM (λ x, getitem x i) xs) (seq 0 inner_len).

(** [_tuple_to_dict(tuple)] *)
Definition _tuple_to_dict {A} (tuple : list A) : gmap Z A :=
  list_to_map (enumerate tuple).

(** [d[i]] *)
Definition dict_getitem {A} (d : gmap Z A) (i : Z) : result A :=
  match d !! i with
  | Some v => Ok v
  | None => Err (KeyError i)
  end.

(** [d.keys()] *)
Definition dict_keys {A} (d : gmap Z A) : list Z := (map_to_list d).*1.

(** [_dict_to_tuple(d)] *)
Definition _dict_to_tuple {A} (d : gmap Z A) : result (list A) :=
  min_k ← py_min (dict_keys d);
  _ ← py_assert (bool_decide (min_k = 0));
  max_k ← py_max (dict_keys d);
  mapM (dict_getitem d) (seqZ 0 (max_k + 1)).

(** ** Spaces *)

(** The per-agent spaces of [gym.spaces] that [flatten_space] knows. A
    bounded-real space is a vector space here: [low] and [high] are
    one-dimensional, and [float] is left abstract. *)
Inductive Space (float : Type) :=
  | Discrete (n : Z)
  | MultiDiscrete (nvec : list Z)
  | Box (low high : list float).
Arguments Discrete {float} n.
Arguments MultiDiscrete {float} nvec.
Arguments Box {float} low high.

(** The combined space that [flatten_space] builds. [MultiDiscrete] over a
    list of [nvec]s gets one row per agent. *)
Inductive FlatSpace (float : Type) :=
  | FlatMultiDiscrete (nvec : list Z)
  | FlatMultiDiscreteRows (nvec : list (list Z))
  | FlatBox (low high : list float).
Arguments FlatMultiDiscrete {float} nvec.
Arguments FlatMultiDiscreteRows {float} nvec.
Arguments FlatBox {float} low high.

(** Values of observations and actions: integers, reals and sequences. *)
#[warnings="-register-all"]
Inductive Value (float : Type) :=
  | VInt (z : Z)
  | VFloat (x : float)
  | VSeq (xs : list (Value float)).
Arguments VInt {float} z.
Arguments VFloat {float} x.
Arguments VSeq {float} xs.

(** Class objects, and the objects [isinstance] is applied to. *)
Inductive pyclass := ClsDiscrete | ClsMultiDiscrete | ClsBox | ClsType.

#[global] Instance pyclass_eq_dec : EqDecision pyclass.
Proof. solve_decision. Defined.

Inductive pyobj (float : Type) :=
  | ObjSpace (s : Space float)
  | ObjClass (c : pyclass).
Arguments ObjSpace {float} s.
Arguments ObjClass {float} c.

(** The builtin [type(o)]: the class of a space instance; the class of a
    class object is [type] itself. *)
Definition builtin_type {float} (o : pyobj float) : pyclass :=
  match o with
  | ObjSpace (Discrete _) => ClsDiscrete
  | ObjSpace (MultiDiscrete _) => ClsMultiDiscrete
  | ObjSpace (Box _ _) => ClsBox
  | ObjClass _ => ClsType
  end.

(** [isinstance(o, c)]: none of the four classes is a subclass of another. *)
Definition isinstance {float} (o : pyobj float) (c : pyclass) : bool :=
  bool_decide (builtin_type o = c).

(** Attribute reads [space.n], [space.nvec], [space.low], [space.high] and
    [space.shape]. *)
Definition space_n {float} (s : Space float) : result Z :=
  match s with Discrete n => Ok n | _ => Err AttributeError end.
Definition space_nvec {float} (s : Space float) : result (list Z) :=
  match s with MultiDiscrete nvec => Ok nvec | _ => Err AttributeError end.
Definition space_low {float} (s : Space float) : result (list float) :=
  match s with Box low _ => Ok low | _ => Err AttributeError end.
Definition space_high {float} (s : Space float) : result (list float) :=
  match s with Box _ high => Ok high | _ => Err AttributeError end.
Definition space_shape {float} (s : Space float) : list Z :=
  match s with
  | Discrete _ => []
  | MultiDiscrete nvec => [Z.of_nat (length nvec)]
  | Box low _ => [Z.of_nat (length low)]
  end.

(** ** numpy, as far as [flatten_space] calls it, on vectors *)

(** [np.concatenate] called with the arrays unpacked into its positional
    parameters and [axis=0] by keyword. With one vector, numpy iterates over its
    scalars and refuses to concatenate them; with none, or with more than
    one, the call does not match the signature. *)
Definition np_concatenate_unpacked {float} (arrays : list (list float))
  : result (list float) :=
  match arrays with
  | [_] => Err ValueError
  | _ => Err TypeError
  end.

(** [np.flatten]: numpy has no such function. *)
Definition np_flatten {float} (x : Value float) : result (Value float) :=
  Err AttributeError.

(** [np.prod(shape)] *)
Definition np_prod (shape : list Z) : Z := foldr Z.mul 1 shape.

(** [np.cumsum(sizes)] *)
Fixpoint np_cumsum_from (acc : Z) (sizes : list Z) : list Z :=
  match sizes with
  | [] => []
  | s :: sizes => (acc + s) :: np_cumsum_from (acc + s) sizes
  end.
Definition np_cumsum (sizes : list Z) : list Z := np_cumsum_from 0 sizes.

(** [len(x)] of a sequence *)
Definition py_len {float} (x : list (Value float)) : Z := Z.of_nat (length x).

(** [x[s:e]] of a sequence, for non-negative bounds *)
Definition py_slice {float} (x : list (Value float)) (s e : Z) : list (Value float) :=
  take (Z.to_nat e - Z.to_nat s) (drop (Z.to_nat s) x).

(** [np.reshape(v, shape)] *)
Definition np_reshape {float} (v : list (Value float)) (shape : list Z)
  : result (Value float) :=
  if bool_decide (Z.of_nat (length v) = np_prod shape) then Ok (VSeq v)
  else Err ValueError.

(** [zip(start, end, spaces)] *)
Fixpoint zip3 {A B C} (l1 : list A) (l2 : list B) (l3 : list C) : list (A * B * C) :=
  match l1, l2, l3 with
  | a :: l1, b :: l2, c :: l3 => (a, b, c) :: zip3 l1 l2 l3
  | _, _, _ => []
  end.

(** ** [flatten_space] *)

(** What [flatten_space] returns. [flatten] takes the tuple of per-agent
    values as one value; [unflatten] takes a value of the combined space,
    which is a sequence, and returns the per-agent sequence. *)
Record Flattened (float : Type) := mkFlattened {
  flat_space : FlatSpace float;
  flatten : Value float → result (Value float);
  unflatten : list (Value float) → result (list (Value float));
}.
Arguments mkFlattened {float} flat_space flatten unflatten.
Arguments flat_space {float} f.
Arguments flatten {float} f x.
Arguments unflatten {float} f x.

(** The closure [unflatten] of the [Box] branch. *)
Definition box_unflatten {float} (spaces : list (Space float))
    (x : list (Value float)) : result (list (Value float)) :=
  let sizes := (λ space, np_prod (space_shape space)) <$> spaces in
  let start := np_cumsum sizes in
  let end_ := (λ s, s + py_len x) <$> drop 1 start in
  orig ← mapM (λ '(s, e, space), np_reshape (py_slice x s e) (space_shape space))
              (zip3 start end_ spaces);
  Ok orig.

(** The body of [flatten_space]. The name [type] is read inside the
    generator expression of the first statement; [type_name] is what that
    name is bound to there ([None] for an unbound variable). *)
Definition flatten_space_body {float}
    (type_name : option (pyobj float → pyclass))
    (tuple_space : list (Space float)) : result (Flattened float) :=
  types ← mapM (λ space, match type_name with
                         | Some type => Ok (type (ObjSpace space))
                         | None => Err NameError
                         end) tuple_space;
  let unique_types := remove_dups types in
  if bool_decide (1 < length unique_types)%nat then Err TypeError
  else
    type ← match unique_types with
           | [] => Err KeyErrorEmptySet
           | c :: _ => Ok c
           end;
    if isinstance (float:=float) (ObjClass type) ClsDiscrete then
      ns ← mapM space_n tuple_space;
      Ok (mkFlattened (FlatMultiDiscrete ns) Ok Ok)
    else if isinstance (float:=float) (ObjClass type) ClsMultiDiscrete then
      nvecs ← mapM space_nvec tuple_space;
      Ok (mkFlattened (FlatMultiDiscreteRows nvecs) Ok Ok)
    else if isinstance (float:=float) (ObjClass type) ClsBox then
      lows ← mapM space_low tuple_space;
      low ← np_concatenate_unpacked lows;
      highs ← mapM space_high tuple_space;
      high ← np_concatenate_unpacked highs;
      Ok (mkFlattened (FlatBox low high) np_flatten (box_unflatten tuple_space))
    else Err NotImplementedError.

(** [flatten_space(tuple_space)]. The function assigns [type] further down
    ([type = unique_types.pop()]), which makes [type] a local variable of
    the whole function: the generator expression reads that variable, not
    the builtin, before anything was assigned to it. *)
Definition flatten_space {float} (tuple_space : list (Space float))
  : result (Flattened float) :=
  flatten_space_body None tuple_space.

(** ** Environments *)

(** References to list objects, and the store that holds their contents. A
    reference always names a list: reading a reference that the store does
    not hold gives the empty list. *)
Abbreviation loc := positive (only parsing).
Abbreviation store Action := (gmap positive (list Action)) (only parsing).

(** What [step] returns: [(observations, rewards, done, infos)]. *)
Record StepResult (Obs Reward Info : Type) := mkStep {
  observations : list Obs;
  rewards : list Reward;
  done : bool;
  infos : Info;
}.
Arguments mkStep {Obs Reward Info} observations rewards done infos.
Arguments observations {Obs Reward Info} s.
Arguments rewards {Obs Reward Info} s.
Arguments done {Obs Reward Info} s.
Arguments infos {Obs Reward Info} s.

(** The interface [MultiAgentEnv]: the attributes [num_agents],
    [observation_space] and [action_space] (the spaces of a [Tuple]), and the
    methods [step] and [reset]. An environment is a value of [E]; a method
    returns the environment after the call, also when it raises. [step] is
    handed a reference to the caller's action list. *)
Module MultiAgentEnv.
Class t (Action Obs Reward Info Sp E : Type) := {
  num_agents : E → Z;
  observation_space : E → list Sp;
  action_space : E → list Sp;
  step : E → store Action → loc → E * store Action * result (StepResult Obs Reward Info);
  reset : E → E * result (list Obs);
}.
End MultiAgentEnv.

(** Modelled from the spec: [aprl.utils.getattr_unwrapped] is not among the
    sources. Every environment here exposes [num_agents] itself, so looking
    the attribute up through the wrappers reads it from the environment. *)
Definition getattr_unwrapped_num_agents `{MultiAgentEnv.t Action Obs Reward Info Sp E}
  (env : E) : Z := MultiAgentEnv.num_agents env.

(** The fixed policy of [CurryEnv]: [agent.get_action(observation)], where
    the observation may be [None]. The policy may keep state and may raise. *)
Module Agent.
Class t (Action Obs Ag : Type) := {
  get_action : Ag → option Obs → Ag * result Action;
}.
End Agent.

(** [MultiWrapper]: gym's [Wrapper.__init__] stores the environment and
    copies its two spaces, then [MultiAgentEnv.__init__] checks them against
    [num_agents]. *)
Module MultiWrapper.
Record t (Sp E : Type) := mk {
  env : E;
  num_agents : Z;
  observation_space : list Sp;
  action_space : list Sp;
}.
Arguments mk {Sp E} env num_agents observation_space action_space.
Arguments env {Sp E} _.
Arguments num_agents {Sp E} _.
Arguments observation_space {Sp E} _.
Arguments action_space {Sp E} _.

Definition __init__ `{MultiAgentEnv.t Action Obs Reward Info Sp E}
    (env : E) : result (t Sp E) :=
  let action_space := MultiAgentEnv.action_space env in
  let observation_space := MultiAgentEnv.observation_space env in
  let num_agents := getattr_unwrapped_num_agents env in
  _ ← py_assert (bool_decide (Z.of_nat (length action_space) = num_agents));
  _ ← py_assert (bool_decide (Z.of_nat (length observation_space) = num_agents));
  Ok (mk env num_agents observation_space action_space).
End MultiWrapper.

(** [_tuple_space_filter(tuple_space, filter_idx)] *)
Definition _tuple_space_filter {Sp} (tuple_space : list Sp) (filter_idx : Z)
  : list Sp :=
  (filter (λ p, p.1 ≠ filter_idx) (enumerate tuple_space)).*2.

(** ** [CurryEnv] *)

Module CurryEnv.
Record t (Obs Reward Sp E Ag : Type) := mk {
  env : E;
  num_agents : Z;
  observation_space : list Sp;
  action_space : list Sp;
  _agent_to_fix : Z;
  _agent : Ag;
  _last_obs : option Obs;
  _last_reward : option Reward;
}.
Arguments mk {Obs Reward Sp E Ag}.
Arguments env {Obs Reward Sp E Ag} _.
Arguments num_agents {Obs Reward Sp E Ag} _.
Arguments observation_space {Obs Reward Sp E Ag} _.
Arguments action_space {Obs Reward Sp E Ag} _.
Arguments _agent_to_fix {Obs Reward Sp E Ag} _.
Arguments _agent {Obs Reward Sp E Ag} _.
Arguments _last_obs {Obs Reward Sp E Ag} _.
Arguments _last_reward {Obs Reward Sp E Ag} _.

Section methods.
Context `{MultiAgentEnv.t Action Obs Reward Info Sp E}.
Context `{Agent.t Action Obs Ag}.
Abbreviation self_t := (t Obs Reward Sp E Ag).

(** Attribute assignments on [self]. *)
Definition set_env (self : self_t) (e : E) : self_t :=
  mk e self.(num_agents) self.(observation_space) self.(action_space)
     self.(_agent_to_fix) self.(_agent) self.(_last_obs) self.(_last_reward).
Definition set_agent (self : self_t) (a : Ag) : self_t :=
  mk self.(env) self.(num_agents) self.(observation_space) self.(action_space)
     self.(_agent_to_fix) a self.(_last_obs) self.(_last_reward).
Definition set_last_obs (self : self_t) (o : option Obs) : self_t :=
  mk self.(env) self.(num_agents) self.(observation_space) self.(action_space)
     self.(_agent_to_fix) self.(_agent) o self.(_last_reward).
Definition set_last_reward (self : self_t) (r : option Reward) : self_t :=
  mk self.(env) self.(num_agents) self.(observation_space) self.(action_space)
     self.(_agent_to_fix) self.(_agent) self.(_last_obs) r.

(** [CurryEnv(env, agent, agent_idx)] *)
Definition __init__ (env : E) (agent : Ag) (agent_idx : Z) : result self_t :=
  w ← MultiWrapper.__init__ env;
  _ ← py_assert (bool_decide (1 ≤ MultiAgentEnv.num_agents env));
  let num_agents := MultiAgentEnv.num_agents env - 1 in
  let observation_space :=
    _tuple_space_filter w.(MultiWrapper.observation_space) agent_idx in
  let action_space :=
    _tuple_space_filter w.(MultiWrapper.action_space) agent_idx in
  Ok (mk w.(MultiWrapper.env) num_agents observation_space action_space
         agent_idx agent None None).

(** [CurryEnv.step(actions)]: [actions] refers to the caller's list. *)
Definition step (self : self_t) (st : store Action) (actions : loc)
  : self_t * store Action * result (StepResult Obs Reward Info) :=
  let '(agent, r) := Agent.get_action self.(_agent) self.(_last_obs) in
  let self := set_agent self agent in
  match r with
  | Err e => (self, st, Err e)
  | Ok action =>
    let st := <[actions := list_insert_at self.(_agent_to_fix) action (st !!! actions)]> st in
    let '(env, st, r) := MultiAgentEnv.step self.(env) st actions in
    let self := set_env self env in
    match r with
    | Err e => (self, st, Err e)
    | Ok res =>
      match _tuple_pop res.(observations) self.(_agent_to_fix) with
      | Err e => (self, st, Err e)
      | Ok (observations, last_obs) =>
        let self := set_last_obs self (Some last_obs) in
        match _tuple_pop res.(rewards) self.(_agent_to_fix) with
        | Err e => (self, st, Err e)
        | Ok (rewards, last_reward) =>
          let self := set_last_reward self (Some last_reward) in
          (self, st, Ok (mkStep observations rewards res.(done) res.(infos)))
        end
      end
    end
  end.

(** [CurryEnv.reset()] *)
Definition reset (self : self_t) : self_t * result (list Obs) :=
  let '(env, r) := MultiAgentEnv.reset self.(env) in
  let self := set_env self env in
  match r with
  | Err e => (self, Err e)
  | Ok observations =>
    match _tuple_pop observations self.(_agent_to_fix) with
    | Err e => (self, Err e)
    | Ok (observations, last_obs) =>
      (set_last_obs self (Some last_obs), Ok observations)
    end
  end.

(** A [CurryEnv] is a [MultiAgentEnv] again. *)
#[export] Instance multi_agent_env : MultiAgentEnv.t Action Obs Reward Info Sp self_t := {|
  MultiAgentEnv.num_agents := num_agents;
  MultiAgentEnv.observation_space := observation_space;
  MultiAgentEnv.action_space := action_space;
  MultiAgentEnv.step := step;
  MultiAgentEnv.reset := reset;
|}.
End methods.
End CurryEnv.


(** ** [FlattenMultiEnv] *)

(** The wrapper over an environment whose observations and actions are
    [Value]s. Of the attributes set by the constructor the record keeps the
    environment, the two mappings and [reward_agg]. An action of the
    combined space is a sequence, and so is what [_act_unflatten] makes of
    it: the list of per-agent actions that the environment is stepped
    on. *)
Module FlattenMultiEnv.
Record t (float Reward E : Type) := mk {
  env : E;
  _obs_flatten : Value float → result (Value float);
  _act_unflatten : list (Value float) → result (list (Value float));
  reward_agg : list Reward → Reward;
}.
Arguments mk {float Reward E}.
Arguments env {float Reward E} _.
Arguments _obs_flatten {float Reward E} _ _.
Arguments _act_unflatten {float Reward E} _ _.
Arguments reward_agg {float Reward E} _ _.

Section methods.
Context {float : Type}.
Context `{MultiAgentEnv.t (Value float) (Value float) Reward Info (Space float) E}.
Abbreviation self_t := (t float Reward E).

Definition set_env (self : self_t) (e : E) : self_t :=
  mk e self.(_obs_flatten) self.(_act_unflatten) self.(reward_agg).

(** [FlattenMultiEnv(env, reward_agg)] *)
Definition __init__ (env : E) (reward_agg : list Reward → Reward) : result self_t :=
  fo ← flatten_space (MultiAgentEnv.observation_space env);
  fa ← flatten_space (MultiAgentEnv.action_space env);
  Ok (mk env (flatten fo) (unflatten fa) reward_agg).

(** [FlattenMultiEnv.step(action)]. The unflattened action is handed to the
    environment as a list object of its own. *)
Definition step (self : self_t) (st : store (Value float)) (action : list (Value float))
  : self_t * store (Value float) * result (Value float * Reward * bool * Info) :=
  match self.(_act_unflatten) action with
  | Err e => (self, st, Err e)
  | Ok action =>
    let actions := fresh (dom st) in
    let st := <[actions := action]> st in
    let '(env, st, r) := MultiAgentEnv.step self.(env) st actions in
    let self := set_env self env in
    match r with
    | Err e => (self, st, Err e)
    | Ok res =>
      match self.(_obs_flatten) (VSeq res.(observations)) with
      | Err e => (self, st, Err e)
      | Ok obs => (self, st, Ok (obs, self.(reward_agg) res.(rewards), res.(done), res.(infos)))
      end
    end
  end.

(** [FlattenMultiEnv.reset()] *)
Definition reset (self : self_t) : self_t * result (Value float) :=
  let '(env, r) := MultiAgentEnv.reset self.(env) in
  let self := set_env self env in
  match r with
  | Err e => (self, Err e)
  | Ok observations =>
    match getitem observations 0 with
    | Err e => (self, Err e)
    | Ok first => (self, Ok first)
    end
  end.
End methods.
End FlattenMultiEnv.

(** ** The tuple/dict bridge around vectorised environments *)

(** [_TupleToDict(env)]: the two spaces become [Dict] spaces keyed by agent
    index. *)
Module _TupleToDict.
Record t (Sp E : Type) := mk {
  env : E;
  num_agents : Z;
  action_space : gmap Z Sp;
  observation_space : gmap Z Sp;
}.
Arguments mk {Sp E}.
Arguments env {Sp E} _.
Arguments num_agents {Sp E} _.
Arguments action_space {Sp E} _.
Arguments observation_space {Sp E} _.

Definition __init__ `{MultiAgentEnv.t Action Obs Reward Info Sp E}
    (env : E) : result (t Sp E) :=
  w ← MultiWrapper.__init__ env;
  Ok (mk w.(MultiWrapper.env) w.(MultiWrapper.num_agents)
         (_tuple_to_dict (MultiAgentEnv.action_space env))
         (_tuple_to_dict (MultiAgentEnv.observation_space env))).
Section methods.
Context `{MultiAgentEnv.t Action Obs Reward Info Sp E}.

Definition set_env (self : t Sp E) (e : E) : t Sp E :=
  mk e self.(num_agents) self.(action_space) self.(observation_space).

(** [_TupleToDict.step(action)]: the action is handed on as it is. *)
Definition step (self : t Sp E) (st : store Action) (action : loc)
  : t Sp E * store Action * result (gmap Z Obs * list Reward * bool * Info) :=
  let '(env, st, r) := MultiAgentEnv.step self.(env) st action in
  let self := set_env self env in
  match r with
  | Err e => (self, st, Err e)
  | Ok res =>
    let obs := _tuple_to_dict res.(observations) in
    (self, st, Ok (obs, res.(rewards), res.(done), res.(infos)))
  end.

(** [_TupleToDict.reset()] *)
Definition reset (self : t Sp E) : t Sp E * result (gmap Z Obs) :=
  let '(env, r) := MultiAgentEnv.reset self.(env) in
  let self := set_env self env in
  match r with
  | Err e => (self, Err e)
  | Ok obs => (self, Ok (_tuple_to_dict obs))
  end.
End methods.
End _TupleToDict.

(** [_decorate_tuple_to_dict(env_fn)]: a factory is a function of no
    argument that returns a new environment, or raises. *)
Definition _decorate_tuple_to_dict `{MultiAgentEnv.t Action Obs Reward Info Sp E}
    (env_fn : () → result E) : () → result (_TupleToDict.t Sp E) :=
  λ _, env ← env_fn (); _TupleToDict.__init__ env.

(** What [VecEnv.__init__] records. *)
Module VecEnv.
Record t (Sp : Type) := mk {
  num_envs : nat;
  observation_space : gmap Z Sp;
  action_space : gmap Z Sp;
}.
Arguments mk {Sp}.
Arguments num_envs {Sp} _.
Arguments observation_space {Sp} _.
Arguments action_space {Sp} _.
End VecEnv.

(** [baselines]' [DummyVecEnv.__init__(env_fns)], as far as the constructors
    below depend on it: it calls every factory in order, keeps the
    environments in [envs], and takes the spaces of the first one. *)
Module DummyVecEnv.
Record t (Sp Env : Type) := mk {
  envs : list Env;
  base : VecEnv.t Sp;
}.
Arguments mk {Sp Env}.
Arguments envs {Sp Env} _.
Arguments base {Sp Env} _.

Definition __init__ {Sp E} (env_fns : list (() → result (_TupleToDict.t Sp E)))
  : result (t Sp (_TupleToDict.t Sp E)) :=
  envs ← mapM (λ fn, fn ()) env_fns;
  env ← getitem envs 0;
  Ok (mk envs (VecEnv.mk (length env_fns)
                         env.(_TupleToDict.observation_space)
                         env.(_TupleToDict.action_space))).
End DummyVecEnv.

(** [VecMultiEnv]: a [VecEnv] with the extra attribute [num_agents]. *)
Module VecMultiEnv.
Record t (Sp : Type) := mk {
  num_envs : nat;
  num_agents : Z;
  observation_space : gmap Z Sp;
  action_space : gmap Z Sp;
}.
Arguments mk {Sp}.
Arguments num_envs {Sp} _.
Arguments num_agents {Sp} _.
Arguments observation_space {Sp} _.
Arguments action_space {Sp} _.

Definition __init__ {Sp} (num_envs : nat) (num_agents : Z)
    (observation_space action_space : gmap Z Sp) : t Sp :=
  mk num_envs num_agents observation_space action_space.
End VecMultiEnv.

(** [_DummyVecMultiEnv(env_fns)]. [buf_rews] is kept as its shape. *)
Module _DummyVecMultiEnv.
Record t (Sp Env : Type) := mk {
  envs : list Env;
  multi : VecMultiEnv.t Sp;
  buf_rews : nat * Z;
}.
Arguments mk {Sp Env}.
Arguments envs {Sp Env} _.
Arguments multi {Sp Env} _.
Arguments buf_rews {Sp Env} _.

Definition __init__ {Sp E} (env_fns : list (() → result (_TupleToDict.t Sp E)))
  : result (t Sp (_TupleToDict.t Sp E)) :=
  d ← DummyVecEnv.__init__ env_fns;
  env0 ← getitem d.(DummyVecEnv.envs) 0;
  let num_agents := env0.(_TupleToDict.num_agents) in
  let multi := VecMultiEnv.__init__ d.(DummyVecEnv.base).(VecEnv.num_envs) num_agents
                 d.(DummyVecEnv.base).(VecEnv.observation_space)
                 d.(DummyVecEnv.base).(VecEnv.action_space) in
  Ok (mk d.(DummyVecEnv.envs) multi
         (multi.(VecMultiEnv.num_envs), multi.(VecMultiEnv.num_agents))).
End _DummyVecMultiEnv.

(** [_SubprocVecMultiEnv(env_fns)]. [SubprocVecEnv.__init__] starts the
    workers; it is a parameter here. The constructor then calls the first
    factory once more to read [num_agents]. *)
Module _SubprocVecMultiEnv.
Definition __init__ {Sp E}
    (SubprocVecEnv_init : list (() → result (_TupleToDict.t Sp E)) → result (VecEnv.t Sp))
    (env_fns : list (() → result (_TupleToDict.t Sp E)))
  : result (VecMultiEnv.t Sp) :=
  b ← SubprocVecEnv_init env_fns;
  env_fn ← getitem env_fns 0;
  env ← env_fn ();
  let num_agents := env.(_TupleToDict.num_agents) in
  Ok (VecMultiEnv.__init__ b.(VecEnv.num_envs) num_agents
        b.(VecEnv.observation_space) b.(VecEnv.action_space)).
End _SubprocVecMultiEnv.

(** The methods of a vectorised environment that [_DictToTuple] calls:
    [reset()] returns the observations keyed by agent, [step_async(actions)]
    takes one action sequence per environment. *)
Module VecEnvMethods.
Class t (Action ObsV V : Type) := {
  reset : V → V * result (gmap Z ObsV);
  step_async : V → list (list Action) → V * result ();
}.
End VecEnvMethods.

(** [_DictToTuple(venv)]: the spaces of the vectorised environment become
    [Tuple] spaces again. *)
Module _DictToTuple.
Record t (Sp V : Type) := mk {
  venv : V;
  num_envs : nat;
  num_agents : Z;
  action_space : list Sp;
  observation_space : list Sp;
}.
Arguments mk {Sp V}.
Arguments venv {Sp V} _.
Arguments num_envs {Sp V} _.
Arguments num_agents {Sp V} _.
Arguments action_space {Sp V} _.
Arguments observation_space {Sp V} _.

Definition __init__ {Sp V} (multi : V → VecMultiEnv.t Sp) (venv : V) : result (t Sp V) :=
  let m := multi venv in
  action_space ← _dict_to_tuple m.(VecMultiEnv.action_space);
  observation_space ← _dict_to_tuple m.(VecMultiEnv.observation_space);
  Ok (mk venv m.(VecMultiEnv.num_envs) m.(VecMultiEnv.num_agents)
         action_space observation_space).
Section methods.
Context `{VecEnvMethods.t Action ObsV V} {Sp : Type}.

Definition set_venv (self : t Sp V) (v : V) : t Sp V :=
  mk v self.(num_envs) self.(num_agents) self.(action_space) self.(observation_space).

(** [_DictToTuple.reset()] *)
Definition reset (self : t Sp V) : t Sp V * result (list ObsV) :=
  let '(v, r) := VecEnvMethods.reset self.(venv) in
  let self := set_venv self v in
  match r with
  | Err e => (self, Err e)
  | Ok obs => (self, _dict_to_tuple obs)
  end.

(** [_DictToTuple.step_async(actions)] *)
Definition step_async (self : t Sp V) (actions : list (list Action))
  : t Sp V * result () :=
  match tuple_transpose actions with
  | Err e => (self, Err e)
  | Ok actions_per_env =>
    let '(v, r) := VecEnvMethods.step_async self.(venv) actions_per_env in
    (set_venv self v, r)
  end.
End methods.
End _DictToTuple.

(** [_make_vec_multi_env(cls)(env_fns)]; [multi] reads the [VecMultiEnv]
    attributes of an instance of [cls]. *)
Definition _make_vec_multi_env `{MultiAgentEnv.t Action Obs Reward Info Sp E} {V}
    (cls : list (() → result (_TupleToDict.t Sp E)) → result V)
    (multi : V → VecMultiEnv.t Sp)
    (env_fns : list (() → result E)) : result (_DictToTuple.t Sp V) :=
  let env_fns := _decorate_tuple_to_dict <$> env_fns in
  venv ← cls env_fns;
  _DictToTuple.__init__ multi venv.

Definition make_dummy_vec_multi_env `{MultiAgentEnv.t Action Obs Reward Info Sp E}
    (env_fns : list (() → result E)) :=
  _make_vec_multi_env _DummyVecMultiEnv.__init__ _DummyVecMultiEnv.multi env_fns.

Definition make_subproc_vec_multi_env `{MultiAgentEnv.t Action Obs Reward Info Sp E}
    (SubprocVecEnv_init : list (() → result (_TupleToDict.t Sp E)) → result (VecEnv.t Sp))
    (env_fns : list (() → result E)) :=
  _make_vec_multi_env (_SubprocVecMultiEnv.__init__ SubprocVecEnv_init) id env_fns.

(** ** [FlattenSingletonEnv] *)

Module FlattenSingletonEnv.
Record t (Sp E : Type) := mk {
  env : E;
  observation_space : Sp;
  action_space : Sp;
}.
Arguments mk {Sp E}.
Arguments env {Sp E} _.
Arguments observation_space {Sp E} _.
Arguments action_space {Sp E} _.

Section methods.
Context `{MultiAgentEnv.t Action Obs Reward Info Sp E}.

Definition set_env (self : t Sp E) (e : E) : t Sp E :=
  mk e self.(observation_space) self.(action_space).

(** [FlattenSingletonEnv(env)] *)
Definition __init__ (env : E) : result (t Sp E) :=
  _ ← py_assert (bool_decide (MultiAgentEnv.num_agents env = 1));
  observation_space ← getitem (MultiAgentEnv.observation_space env) 0;
  action_space ← getitem (MultiAgentEnv.action_space env) 0;
  Ok (mk env observation_space action_space).

(** [FlattenSingletonEnv.step(action)]: the environment is stepped on a new
    one-element list. *)
Definition step (self : t Sp E) (st : store Action) (action : Action)
  : t Sp E * store Action * result (Obs * Reward * bool * Info) :=
  let actions := fresh (dom st) in
  let st := <[actions := [action]]> st in
  let '(env, st, r) := MultiAgentEnv.step self.(env) st actions in
  let self := set_env self env in
  match r with
  | Err e => (self, st, Err e)
  | Ok res =>
    match getitem res.(observations) 0 with
    | Err e => (self, st, Err e)
    | Ok o =>
      match getitem res.(rewards) 0 with
      | Err e => (self, st, Err e)
      | Ok rw => (self, st, Ok (o, rw, res.(done), res.(infos)))
      end
    end
  end.

(** [FlattenSingletonEnv.reset()] *)
Definition reset (self : t Sp E) : t Sp E * result Obs :=
  let '(env, r) := MultiAgentEnv.reset self.(env) in
  let self := set_env self env in
  match r with
  | Err e => (self, Err e)
  | Ok observations =>
    match getitem observations 0 with
    | Err e => (self, Err e)
    | Ok first => (self, Ok first)
    end
  end.
End methods.
End FlattenSingletonEnv.

(** ** Example environments and policies *)

(** An environment of [echo_agents] agents, each with space [Discrete 2].
    It keeps the action lists it was stepped with; agent [i] observes the
    pair of its index and its own action, and is rewarded [10 * i]. A step
    with the wrong number of actions raises. *)
Record EchoEnv := mkEcho {
  echo_agents : nat;
  echo_log : list (list Z);
}.

Definition echo_spaces (e : EchoEnv) : list (Space Empty_set) :=
  replicate (echo_agents e) (Discrete 2).

Definition echo_step (e : EchoEnv) (st : store Z) (actions : loc)
  : EchoEnv * store Z * result (StepResult (Z * Z) Z ()) :=
  let acts := st !!! actions in
  if bool_decide (length acts = echo_agents e) then
    (mkEcho (echo_agents e) (acts :: echo_log e), st,
     Ok (mkStep (enumerate acts)
                ((λ i, 10 * i) <$> seqZ 0 (Z.of_nat (echo_agents e))) false ()))
  else (e, st, Err (Raised 0)).

Definition echo_reset (e : EchoEnv) : EchoEnv * result (list (Z * Z)) :=
  (mkEcho (echo_agents e) [],
   Ok ((λ i, (i, -1)) <$> seqZ 0 (Z.of_nat (echo_agents e)))).

#[global] Instance echo_env : MultiAgentEnv.t Z (Z * Z) Z () (Space Empty_set) EchoEnv := {|
  MultiAgentEnv.num_agents e := Z.of_nat (echo_agents e);
  MultiAgentEnv.observation_space := echo_spaces;
  MultiAgentEnv.action_space := echo_spaces;
  MultiAgentEnv.step := echo_step;
  MultiAgentEnv.reset := echo_reset;
|}.

(** A policy that always returns the same action, and counts its calls
    with an unset observation. *)
Record ConstAgent := mkConst {
  const_action : Z;
  const_unset_calls : nat;
}.

#[global] Instance const_agent : Agent.t Z (Z * Z) ConstAgent := {|
  Agent.get_action ag obs :=
    (mkConst (const_action ag)
             (if obs is None then S (const_unset_calls ag) else const_unset_calls ag),
     Ok (const_action ag));
|}.

(** An environment whose observations and actions are [Value]s: agent [i]
    observes the integer [i], after a reset as after a step. *)
Record CountEnv := mkCount {
  count_agents : nat;
}.

Definition count_observations (e : CountEnv) : list (Value Empty_set) :=
  VInt <$> seqZ 0 (Z.of_nat (count_agents e)).

#[global] Instance count_env
  : MultiAgentEnv.t (Value Empty_set) (Value Empty_set) Z () (Space Empty_set) CountEnv := {|
  MultiAgentEnv.num_agents e := Z.of_nat (count_agents e);
  MultiAgentEnv.observation_space e := replicate (count_agents e) (Discrete 2);
  MultiAgentEnv.action_space e := replicate (count_agents e) (Discrete 2);
  MultiAgentEnv.step e st actions :=
    (e, st, Ok (mkStep (count_observations e) (replicate (count_agents e) 1) false ()));
  MultiAgentEnv.reset e := (e, Ok (count_observations e));
|}.

(** The three-agent [EchoEnv] curried at index [1] with the policy that
    always answers [0], as its constructor leaves it. *)
Definition echo_curried : CurryEnv.t (Z * Z) Z (Space Empty_set) EchoEnv ConstAgent :=
  CurryEnv.mk (mkEcho 3 []) 2 [Discrete 2; Discrete 2] [Discrete 2; Discrete 2]
              1 (mkConst 0 0) None None.

(** ** Predicates used in the statements *)

(** The indices that fit a machine word ([Py_ssize_t] on a 64-bit build).
    A list is shorter than [2 ^ 63], so every index within a list fits;
    statements about indices outside every list assume it. *)
Definition fits_ssize_t (i : Z) : Prop := - 2 ^ 63 ≤ i < 2 ^ 63.

(** A nested sequence of outer length [a] whose inner sequences all have
    length [b]. *)
Definition rectangular {A} (a b : nat) (xs : list (list A)) : Prop :=
  length xs = a ∧ Forall (λ x, length x = b) xs.

(** The smallest and the largest key of a mapping, as [_dict_to_tuple]
    computes them ([0] for the empty mapping, where the code raises). *)
Definition min_key {A} (d : gmap Z A) : Z :=
  match py_min (dict_keys d) with Ok k => k | Err _ => 0 end.
Definition max_key {A} (d : gmap Z A) : Z :=
  match py_max (dict_keys d) with Ok k => k | Err _ => 0 end.

(** The failures of the bridge on a key set with a hole: the assertion on
    the smallest key, and the lookup of an absent key. *)
Definition MissingKey (e : exn) : Prop :=
  e = AssertionError ∨ ∃ k, e = KeyError k.

(** The states a [CurryEnv] goes through: any sequence of [step] and [reset]
    calls, whether they return or raise. *)
Inductive reachable `{MultiAgentEnv.t Action Obs Reward Info Sp E} `{Agent.t Action Obs Ag}
  (c0 : CurryEnv.t Obs Reward Sp E Ag) : CurryEnv.t Obs Reward Sp E Ag → Prop :=
  | reachable_init : reachable c0 c0
  | reachable_step c st actions c' st' r :
      reachable c0 c →
      CurryEnv.step c st actions = (c', st', r) →
      reachable c0 c'
  | reachable_reset c c' r :
      reachable c0 c →
      CurryEnv.reset c = (c', r) →
      reachable c0 c'.

(** An environment of [n] agents: a set of states [inv] closed under [step]
    and [reset], on which [num_agents] and the lengths of both spaces are
    [n], and whose calls return [n] observations and [n] rewards. *)
Record n_agent_env `{MultiAgentEnv.t Action Obs Reward Info Sp E}
    (n : nat) (inv : E → Prop) : Prop := {
  inv_step e st actions e' st' r :
    inv e → MultiAgentEnv.step e st actions = (e', st', r) → inv e';
  inv_reset e e' r :
    inv e → MultiAgentEnv.reset e = (e', r) → inv e';
  inv_num_agents e : inv e → MultiAgentEnv.num_agents e = Z.of_nat n;
  inv_observation_space e : inv e → length (MultiAgentEnv.observation_space e) = n;
  inv_action_space e : inv e → length (MultiAgentEnv.action_space e) = n;
  inv_step_lengths e st actions e' st' res :
    inv e → MultiAgentEnv.step e st actions = (e', st', Ok res) →
    length res.(observations) = n ∧ length res.(rewards) = n;
  inv_reset_length e e' obs :
    inv e → MultiAgentEnv.reset e = (e', Ok obs) → length obs = n;
}.

(** An environment whose two spaces have [num_agents] entries: the
    assertions of [MultiAgentEnv.__init__]. *)
Definition spaces_match `{MultiAgentEnv.t Action Obs Reward Info Sp E} (e : E) : Prop :=
  Z.of_nat (length (MultiAgentEnv.action_space e)) = MultiAgentEnv.num_agents e ∧
  Z.of_nat (length (MultiAgentEnv.observation_space e)) = MultiAgentEnv.num_agents e.

(** The [_TupleToDict] wrapper that the constructor builds around such an
    environment. *)
Definition tuple_to_dict_of `{MultiAgentEnv.t Action Obs Reward Info Sp E} (e : E)
  : _TupleToDict.t Sp E :=
  _TupleToDict.mk e (MultiAgentEnv.num_agents e)
    (_tuple_to_dict (MultiAgentEnv.action_space e))
    (_tuple_to_dict (MultiAgentEnv.observation_space e)).

(** The states of a curried environment of [n] agents: the environment
    inside is in [inv], the curried index is [idx], and the attributes set
    by the constructor describe [n - 1] agents. *)
Definition curried_inv `{MultiAgentEnv.t Action Obs Reward Info Sp E} {Ag : Type}
    (n : nat) (inv : E → Prop) (idx : Z) (c : CurryEnv.t Obs Reward Sp E Ag) : Prop :=
  inv c.(CurryEnv.env) ∧
  c.(CurryEnv._agent_to_fix) = idx ∧
  c.(CurryEnv.num_agents) = Z.of_nat (n - 1) ∧
  length c.(CurryEnv.observation_space) = (n - 1)%nat ∧
  length c.(CurryEnv.action_space) = (n - 1)%nat.

(** A vectorised environment that keeps the action sequences it was given
    by [step_async], and has no observations. *)
Record LogVenv := mkLogVenv {
  venv_log : list (list (list Z));
}.

#[global] Instance log_venv : VecEnvMethods.t Z Z LogVenv := {|
  VecEnvMethods.reset v := (v, Ok ∅);
  VecEnvMethods.step_async v actions := (mkLogVenv (actions :: venv_log v), Ok ());
|}.

(** A stand-in for the worker-based collaborator: it takes the spaces of
    the first factory's environment. *)
Definition first_env_spaces {Sp E} (env_fns : list (() → result (_TupleToDict.t Sp E)))
  : result (VecEnv.t Sp) :=
  env_fn ← getitem env_fns 0;
  env ← env_fn ();
  Ok (VecEnv.mk (length env_fns) env.(_TupleToDict.observation_space)
                env.(_TupleToDict.action_space)).

(** * Properties *)

(** ** Sequences of fallible computations *)

Section mapM_result.
Context {A B : Type} (f : A → result B).

Lemma mapM_Ok_Forall2 l k :
  mapM f l = Ok k ↔ Forall2 (λ x y, f x = Ok y) l k.
Proof.
  revert k. induction l as [|x l IH]; intros k; simpl.
  - split.
    + intros [= <-]. constructor.
    + intros Hk. by inversion Hk.
  - destruct (f x) as [y|e] eqn:Hx; simpl.
    + destruct (mapM f l) as [k'|e] eqn:Hl; simpl.
      * split.
        -- intros [= <-]. constructor; [done|]. by apply IH.
        -- intros Hk. inversion Hk as [|? y' ? k'' Hy Hk']; subst.
           apply IH in Hk'. unfold mret, result_ret. congruence.
      * split; [done|]. intros Hk. inversion Hk as [|? y' ? k'' Hy Hk']; subst.
        apply IH in Hk'. done.
    + split; [done|]. intros Hk. inversion Hk; congruence.
Qed.

Lemma mapM_Ok_length l k : mapM f l = Ok k → length k = length l.
Proof. intros Hk%mapM_Ok_Forall2. symmetry. by eapply Forall2_length. Qed.

Lemma mapM_Ok_lookup l k i x :
  mapM f l = Ok k → l !! i = Some x → ∃ y, k !! i = Some y ∧ f x = Ok y.
Proof.
  intros Hk%mapM_Ok_Forall2 Hx.
  destruct (Forall2_lookup_l _ _ _ _ _ Hk Hx) as (y & ? & ?). eauto.
Qed.

Lemma mapM_first_Err l1 x l2 e :
  Forall (λ x, is_Ok (f x)) l1 → f x = Err e → mapM f (l1 ++ x :: l2) = Err e.
Proof.
  intros Hl1 Hx. induction Hl1 as [|x' l1 [y Hy] _ IH]; simpl.
  - by rewrite Hx.
  - by rewrite Hy, IH.
Qed.

Lemma mapM_cases l :
  (∃ k, mapM f l = Ok k) ∨
  (∃ l1 x l2 e, l = l1 ++ x :: l2 ∧ Forall (λ x, is_Ok (f x)) l1 ∧
                f x = Err e ∧ mapM f l = Err e).
Proof.
  induction l as [|x l IH]; [left; by exists []|].
  destruct (f x) as [y|e] eqn:Hx.
  - destruct IH as [[k Hk]|(l1 & x' & l2 & e & -> & Hl1 & Hx' & He)].
    + left. exists (y :: k). simpl. by rewrite Hx, Hk.
    + right. exists (x :: l1), x', l2, e. split_and!; [done| |done|].
      * constructor; [by exists y|done].
      * simpl. by rewrite Hx, He.
  - right. exists [], x, l, e. split_and!; [done|constructor|done|].
    simpl. by rewrite Hx.
Qed.
End mapM_result.

(** ** [tuple_transpose] *)

Section transpose.
Context {A : Type}.
Implicit Types xs ys : list (list A).

Lemma asserts_pass {X} (P : X → Prop) `{!∀ x, Decision (P x)} (l : list X) :
  Forall P l → ∃ k, mapM (λ x, py_assert (bool_decide (P x))) l = Ok k.
Proof.
  intros Hl. destruct (mapM_cases (λ x, py_assert (bool_decide (P x))) l)
    as [?|(l1 & x & l2 & e & -> & _ & Hx & _)]; [done|].
  apply Forall_app in Hl as [_ [Hx' _]%Forall_cons].
  by rewrite bool_decide_eq_true_2 in Hx.
Qed.

Lemma column_Ok xs b i :
  Forall (λ x, length x = b) xs → (i < b)%nat →
  ∃ y, mapM (λ x, getitem x i) xs = Ok y.
Proof.
  intros Hxs Hi. destruct (mapM_cases (λ x, getitem x i) xs)
    as [?|(l1 & x & l2 & e & -> & _ & Hx & _)]; [done|].
  apply Forall_app in Hxs as [_ [Hx' _]%Forall_cons].
  unfold getitem in Hx. destruct (x !! i) eqn:Hxi; [done|].
  apply lookup_ge_None in Hxi. lia.
Qed.

(** On a rectangular input with at least one row, the transpose is
    returned, it is rectangular the other way round, and its entry [(i, j)]
    is the entry [(j, i)] of the input. *)
Lemma tuple_transpose_rectangular xs a b :
  rectangular a b xs → (0 < a)%nat →
  ∃ ys, tuple_transpose xs = Ok ys ∧ rectangular b a ys ∧
        ∀ i j, ys !! i ≫= (.!! j) = xs !! j ≫= (.!! i).
Proof.
  intros [Ha Hb] Hpos. destruct xs as [|x0 xs']; [simpl in Ha; lia|].
  assert (length x0 = b) as Hx0 by (by apply Forall_cons in Hb as [? _]).
  unfold tuple_transpose. cbn [getitem lookup list_lookup mbind result_bind].
  rewrite Hx0.
  destruct (asserts_pass (λ x : list A, length x = b) (x0 :: xs') Hb) as [k ->].
  cbn [mbind result_bind].
  set (row := λ i, mapM (λ x : list A, getitem x i) (x0 :: xs')).
  destruct (mapM_cases row (seq 0 b)) as [[ys Hys]|(l1 & i & l2 & e & Hl & _ & Hi & _)].
  - exists ys. split; [done|]. split.
    + split; [by rewrite (mapM_Ok_length _ _ _ Hys), length_seq|].
      apply Forall_lookup. intros i y Hy.
      apply mapM_Ok_Forall2 in Hys.
      destruct (Forall2_lookup_r _ _ _ _ _ Hys Hy) as (i' & _ & Hrow).
      unfold row in Hrow. by rewrite (mapM_Ok_length _ _ _ Hrow).
    + intros i j. destruct (decide (i < b)%nat) as [Hi|Hi].
      * assert (seq 0 b !! i = Some i) as Hseq by (by apply lookup_seq).
        destruct (mapM_Ok_lookup _ _ _ _ _ Hys Hseq) as (y & -> & Hrow).
        unfold row in Hrow. simpl.
        destruct ((x0 :: xs') !! j) as [x|] eqn:Hxj.
        -- destruct (mapM_Ok_lookup _ _ _ _ _ Hrow Hxj) as (v & -> & Hv).
           unfold getitem in Hv. simpl. by destruct (x !! i); simplify_eq.
        -- simpl. apply lookup_ge_None. rewrite (mapM_Ok_length _ _ _ Hrow).
           by apply lookup_ge_None.
      * rewrite (proj2 (lookup_ge_None ys i)).
        2:{ rewrite (mapM_Ok_length _ _ _ Hys), length_seq. lia. }
        simpl. destruct ((x0 :: xs') !! j) as [x|] eqn:Hxj; [|done]. simpl.
        symmetry. apply lookup_ge_None.
        rewrite (Forall_lookup_1 _ _ _ _ Hb Hxj). lia.
  - assert (i < b)%nat as Hib.
    { assert (i ∈ seq 0 b) as Hin
        by (rewrite Hl; apply elem_of_app; right; by left).
      apply elem_of_seq in Hin. lia. }
    destruct (column_Ok (x0 :: xs') b i Hb Hib) as [y Hy].
    unfold row in Hi. congruence.
Qed.

(** Two rectangular sequences of the same dimensions with the same entries
    are equal. *)
Lemma rectangular_ext xs zs a b :
  rectangular a b xs → rectangular a b zs →
  (∀ i j, zs !! j ≫= (.!! i) = xs !! j ≫= (.!! i)) → zs = xs.
Proof.
  intros [Hxa Hxb] [Hza Hzb] Heq. apply list_eq. intros j.
  destruct (xs !! j) as [x|] eqn:Hx.
  - destruct (zs !! j) as [z|] eqn:Hz.
    + f_equal. apply list_eq. intros i. specialize (Heq i j).
      by rewrite Hx, Hz in Heq.
    + apply lookup_ge_None in Hz. apply lookup_lt_Some in Hx. lia.
  - apply lookup_ge_None. apply lookup_ge_None in Hx. lia.
Qed.
End transpose.

(** One row without columns is rectangular, yet transposing it twice
    fails: the transpose of one empty row is the empty sequence, which has
    no first row to measure. *)
Lemma tuple_transpose_twice_no_columns :
  rectangular 1 0 [[] : list Z] ∧
  tuple_transpose [[] : list Z] = Ok [] ∧
  tuple_transpose ([] : list (list Z)) = Err IndexError ∧
  tuple_transpose [[] : list Z] ≫= tuple_transpose ≠ Ok [[]].
Proof.
  split; [split; [done|by repeat constructor]|]. by repeat split.
Qed.

(** C6 (amended). For every rectangular nested sequence with at least one
    row and at least one column, transposing twice returns the sequence. *)
Theorem tuple_transpose_involutive {A} (xs : list (list A)) (a b : nat) :
  rectangular a b xs → (0 < a)%nat → (0 < b)%nat →
  tuple_transpose xs ≫= tuple_transpose = Ok xs.
Proof.
  intros Hxs Ha Hb.
  destruct (tuple_transpose_rectangular xs a b Hxs Ha) as (ys & -> & Hys & Hyx).
  cbn [mbind result_bind].
  destruct (tuple_transpose_rectangular ys b a Hys Hb) as (zs & -> & Hzs & Hzy).
  f_equal. apply (rectangular_ext xs zs a b Hxs Hzs).
  intros i j. by rewrite Hzy, Hyx.
Qed.

Lemma tuple_transpose_involutive_witness :
  tuple_transpose [[1; 2; 3]; [4; 5; 6]] ≫= tuple_transpose
  = Ok [[1; 2; 3]; [4; 5; 6]].
Proof.
  apply (tuple_transpose_involutive _ 2 3).
  - split; [reflexivity|]. repeat constructor.
  - lia.
  - lia.
Defined.

(** ** The tuple/dict bridge *)

Section bridge.
Context {A : Type}.
Implicit Types d : gmap Z A.

Lemma foldl_min_spec k ks :
  foldl Z.min k ks ∈ k :: ks ∧ ∀ x, x ∈ k :: ks → foldl Z.min k ks ≤ x.
Proof.
  revert k. induction ks as [|k' ks IH]; intros k; simpl.
  - split; [by left|]. intros x ->%list_elem_of_singleton. lia.
  - destruct (IH (k `min` k')) as [Hin Hle]. split.
    + rewrite !elem_of_cons. apply elem_of_cons in Hin as [->|Hin]; [|tauto].
      destruct (Z.min_spec k k') as [[_ ->]|[_ ->]]; tauto.
    + intros x Hx. assert (foldl Z.min (k `min` k') ks ≤ k `min` k') as H0
        by (apply Hle; by left).
      apply elem_of_cons in Hx as [->|[->|Hx]%elem_of_cons]; [lia|lia|].
      apply Hle. by right.
Qed.

Lemma foldl_max_spec k ks :
  foldl Z.max k ks ∈ k :: ks ∧ ∀ x, x ∈ k :: ks → x ≤ foldl Z.max k ks.
Proof.
  revert k. induction ks as [|k' ks IH]; intros k; simpl.
  - split; [by left|]. intros x ->%list_elem_of_singleton. lia.
  - destruct (IH (k `max` k')) as [Hin Hle]. split.
    + rewrite !elem_of_cons. apply elem_of_cons in Hin as [->|Hin]; [|tauto].
      destruct (Z.max_spec k k') as [[_ ->]|[_ ->]]; tauto.
    + intros x Hx. assert (k `max` k' ≤ foldl Z.max (k `max` k') ks) as H0
        by (apply Hle; by left).
      apply elem_of_cons in Hx as [->|[->|Hx]%elem_of_cons]; [lia|lia|].
      apply Hle. by right.
Qed.

Lemma elem_of_dict_keys d k : k ∈ dict_keys d ↔ is_Some (d !! k).
Proof.
  unfold dict_keys. rewrite list_elem_of_fmap. split.
  - intros ([k' v] & -> & Hkv). apply elem_of_map_to_list in Hkv. by exists v.
  - intros [v Hv]. exists (k, v). split; [done|]. by apply elem_of_map_to_list.
Qed.

Lemma dict_keys_nonempty d : d ≠ ∅ → dict_keys d ≠ [].
Proof.
  intros Hd Hk. apply Hd. apply map_to_list_empty_iff.
  unfold dict_keys in Hk. by apply fmap_nil_inv in Hk.
Qed.

Lemma min_key_spec d :
  d ≠ ∅ →
  py_min (dict_keys d) = Ok (min_key d) ∧ is_Some (d !! min_key d) ∧
  ∀ k, is_Some (d !! k) → min_key d ≤ k.
Proof.
  intros Hd%dict_keys_nonempty. unfold min_key.
  destruct (dict_keys d) as [|k ks] eqn:Hks; [done|]. simpl.
  destruct (foldl_min_spec k ks) as [Hin Hle]. split; [done|]. split.
  - apply elem_of_dict_keys. by rewrite Hks.
  - intros k' Hk'. apply Hle. rewrite <-Hks. by apply elem_of_dict_keys.
Qed.

Lemma max_key_spec d :
  d ≠ ∅ →
  py_max (dict_keys d) = Ok (max_key d) ∧ is_Some (d !! max_key d) ∧
  ∀ k, is_Some (d !! k) → k ≤ max_key d.
Proof.
  intros Hd%dict_keys_nonempty. unfold max_key.
  destruct (dict_keys d) as [|k ks] eqn:Hks; [done|]. simpl.
  destruct (foldl_max_spec k ks) as [Hin Hle]. split; [done|]. split.
  - apply elem_of_dict_keys. by rewrite Hks.
  - intros k' Hk'. apply Hle. rewrite <-Hks. by apply elem_of_dict_keys.
Qed.

(** C7. Converting a non-empty mapping whose key set is not exactly
    [{0, ..., max_key}] back to a sequence fails: with the assertion on the
    smallest key when that key is not [0], and otherwise with [KeyError]
    at the first absent key below [max_key]. *)
Theorem dict_to_tuple_missing_key d :
  d ≠ ∅ →
  ¬ (∀ k, is_Some (d !! k) ↔ 0 ≤ k ≤ max_key d) →
  ∃ e, _dict_to_tuple d = Err e ∧ MissingKey e ∧
       ((min_key d ≠ 0 ∧ e = AssertionError) ∨
        (min_key d = 0 ∧ ∃ k, e = KeyError k ∧ 0 ≤ k ≤ max_key d ∧ d !! k = None ∧
                              ∀ j, 0 ≤ j < k → is_Some (d !! j))).
Proof.
  intros Hd Hkeys.
  destruct (min_key_spec d Hd) as (Hmin & Hmin_in & Hmin_le).
  destruct (max_key_spec d Hd) as (Hmax & Hmax_in & Hmax_le).
  unfold _dict_to_tuple. rewrite Hmin. cbn [mbind result_bind].
  destruct (decide (min_key d = 0)) as [H0|H0].
  - rewrite bool_decide_eq_true_2 by done. cbn [py_assert mbind result_bind].
    rewrite Hmax. cbn [mbind result_bind].
    destruct (mapM_cases (dict_getitem d) (seqZ 0 (max_key d + 1)))
      as [[vs Hvs]|(l1 & k & l2 & e & Hl & Hl1 & Hk & ->)].
    + exfalso. apply Hkeys. intros k. split.
      * intros Hk. split; [rewrite <-H0|]; auto.
      * intros Hk.
        assert (seqZ 0 (max_key d + 1) !! Z.to_nat k = Some k) as Hseq
          by (apply lookup_seqZ; lia).
        destruct (mapM_Ok_lookup _ _ _ _ _ Hvs Hseq) as (v & _ & Hv).
        unfold dict_getitem in Hv. destruct (d !! k); [done|discriminate].
    + assert (∀ i x, (l1 ++ k :: l2) !! i = Some x → x = Z.of_nat i ∧ x < max_key d + 1)
        as Hseq.
      { intros i x Hx. rewrite <-Hl in Hx. apply lookup_seqZ in Hx. lia. }
      assert (k = Z.of_nat (length l1) ∧ k < max_key d + 1) as [Hk1 Hk2].
      { apply Hseq. by rewrite list_lookup_middle. }
      unfold dict_getitem in Hk. destruct (d !! k) eqn:Hdk; [done|].
      injection Hk as <-. exists (KeyError k). split; [done|].
      split; [right; by exists k|]. right. split; [done|]. exists k.
      split_and!; [done|lia|lia|done|].
      intros j Hj.
      assert (l1 !! Z.to_nat j = Some j) as Hl1j.
      { destruct (l1 !! Z.to_nat j) as [x|] eqn:Hx.
        - destruct (Hseq (Z.to_nat j) x) as [-> _]; [by apply lookup_app_l_Some|].
          f_equal. lia.
        - apply lookup_ge_None in Hx. lia. }
      destruct (Forall_lookup_1 _ _ _ _ Hl1 Hl1j) as [v Hv].
      unfold dict_getitem in Hv. destruct (d !! j); [done|discriminate].
  - rewrite bool_decide_eq_false_2 by done. cbn [py_assert mbind result_bind].
    exists AssertionError. split; [done|]. split; [by left|]. by left.
Qed.
End bridge.

Lemma dict_to_tuple_missing_key_witness :
  ∃ e, _dict_to_tuple (<[0:=7]> (<[2:=9]> ∅) : gmap Z Z) = Err e ∧ MissingKey e ∧
       ((min_key (<[0:=7]> (<[2:=9]> ∅) : gmap Z Z) ≠ 0 ∧ e = AssertionError) ∨
        (min_key (<[0:=7]> (<[2:=9]> ∅) : gmap Z Z) = 0 ∧
         ∃ k, e = KeyError k ∧ 0 ≤ k ≤ max_key (<[0:=7]> (<[2:=9]> ∅) : gmap Z Z) ∧
              (<[0:=7]> (<[2:=9]> ∅) : gmap Z Z) !! k = None ∧
              ∀ j, 0 ≤ j < k → is_Some ((<[0:=7]> (<[2:=9]> ∅) : gmap Z Z) !! j))).
Proof.
  apply dict_to_tuple_missing_key.
  - intros H. apply (f_equal (λ m, m !! 0)) in H. vm_compute in H. discriminate.
  - intros H. destruct (H 1) as [_ H1].
    assert (is_Some ((<[0:=7]> (<[2:=9]> ∅) : gmap Z Z) !! 1)) as [v Hv].
    { apply H1. replace (max_key _) with 2 by (by vm_compute). lia. }
    vm_compute in Hv. discriminate.
Defined.

(** The mapping with keys [0] and [2]: the lookup of key [1] fails. *)
Lemma _dict_to_tuple_keys_0_2 :
  _dict_to_tuple (<[0:=7]> (<[2:=9]> ∅) : gmap Z Z) = Err (KeyError 1).
Proof. by vm_compute. Qed.

(** A mapping without key [0] fails the assertion. *)
Lemma _dict_to_tuple_keys_1_2 :
  _dict_to_tuple (<[1:=7]> (<[2:=9]> ∅) : gmap Z Z) = Err AssertionError.
Proof. by vm_compute. Qed.

Section bridge_round_trip.
Context {A : Type}.
Implicit Types l : list A.

Lemma lookup_enumerate_from l i k :
  (list_to_map (enumerate_from i l) : gmap Z A) !! k
  = if decide (i ≤ k) then l !! Z.to_nat (k - i) else None.
Proof.
  revert i. induction l as [|x l IH]; intros i; simpl.
  - rewrite lookup_empty. by case_decide.
  - destruct (decide (i = k)) as [->|Hne].
    + rewrite lookup_insert_eq. rewrite decide_True by lia.
      by replace (k - k) with 0 by lia.
    + rewrite lookup_insert_ne by done. rewrite IH.
      repeat case_decide; try lia; [|done].
      replace (Z.to_nat (k - i)) with (S (Z.to_nat (k - (i + 1)))) by lia. done.
Qed.

Lemma lookup_tuple_to_dict l k :
  _tuple_to_dict l !! k = if decide (0 ≤ k) then l !! Z.to_nat k else None.
Proof.
  unfold _tuple_to_dict, enumerate. rewrite lookup_enumerate_from.
  by replace (k - 0) with k by lia.
Qed.

(** Bridge round trip: a non-empty sequence converted to a mapping and back
    is the sequence. *)
Lemma _dict_to_tuple_to_dict l :
  l ≠ [] → _dict_to_tuple (_tuple_to_dict l) = Ok l.
Proof.
  intros Hl. set (d := _tuple_to_dict l).
  assert (0 < length l)%nat as Hlen by (destruct l; [done|simpl; lia]).
  assert (∀ k, is_Some (d !! k) ↔ 0 ≤ k < Z.of_nat (length l)) as Hdom.
  { intros k. unfold d. rewrite lookup_tuple_to_dict. case_decide.
    - rewrite lookup_lt_is_Some. lia.
    - split; [by intros [? ?]|lia]. }
  assert (d ≠ ∅) as Hd.
  { intros Hd. assert (is_Some (d !! 0)) as [? H0] by (apply Hdom; lia).
    by rewrite Hd, lookup_empty in H0. }
  destruct (min_key_spec d Hd) as (Hmin & Hmin_in & Hmin_le).
  destruct (max_key_spec d Hd) as (Hmax & Hmax_in & Hmax_le).
  assert (min_key d = 0) as Hmin0.
  { apply Hdom in Hmin_in. assert (min_key d ≤ 0) by (apply Hmin_le, Hdom; lia). lia. }
  assert (max_key d = Z.of_nat (length l) - 1) as Hmax0.
  { apply Hdom in Hmax_in.
    assert (Z.of_nat (length l) - 1 ≤ max_key d) by (apply Hmax_le, Hdom; lia). lia. }
  unfold _dict_to_tuple. rewrite Hmin, Hmin0. cbn [mbind result_bind].
  rewrite bool_decide_eq_true_2 by done. cbn [py_assert mbind result_bind].
  rewrite Hmax, Hmax0. cbn [mbind result_bind].
  apply mapM_Ok_Forall2. apply Forall2_same_length_lookup_2.
  - rewrite length_seqZ. lia.
  - intros i k x Hk Hx. apply lookup_seqZ in Hk as [-> _].
    unfold dict_getitem, d. rewrite lookup_tuple_to_dict.
    rewrite decide_True by lia. replace (Z.to_nat (0 + _)) with i by lia.
    by rewrite Hx.
Qed.
End bridge_round_trip.

(** ** List primitives used by [CurryEnv] *)

Section pop_insert.
Context {A : Type}.
Implicit Types l : list A.

Lemma list_pop_Ok l i x :
  0 ≤ i → l !! Z.to_nat i = Some x →
  list_pop l i = Ok (delete (Z.to_nat i) l, x).
Proof.
  intros Hi Hx. unfold list_pop, py_index.
  destruct (i <? 0) eqn:Hneg; [lia|]. rewrite Hneg. by rewrite Hx.
Qed.

Lemma _tuple_pop_Ok l i x :
  0 ≤ i → l !! Z.to_nat i = Some x →
  _tuple_pop l i = Ok (delete (Z.to_nat i) l, x).
Proof. intros Hi Hx. unfold _tuple_pop. by rewrite (list_pop_Ok l i x). Qed.

Lemma _tuple_pop_in_range l i :
  0 ≤ i < Z.of_nat (length l) →
  ∃ x, l !! Z.to_nat i = Some x ∧ _tuple_pop l i = Ok (delete (Z.to_nat i) l, x).
Proof.
  intros Hi. destruct (lookup_lt_is_Some_2 l (Z.to_nat i)) as [x Hx]; [lia|].
  exists x. split; [done|]. apply _tuple_pop_Ok; [lia|done].
Qed.

(** A successful pop returns a sequence that is one element shorter. *)
Lemma _tuple_pop_length l i l' x :
  _tuple_pop l i = Ok (l', x) → length l = S (length l').
Proof.
  unfold _tuple_pop, list_pop. intros Hpop.
  destruct (py_index (length l) i <? 0); [done|].
  destruct (l !! Z.to_nat (py_index (length l) i)) as [y|] eqn:Hy; [|done].
  cbn in Hpop. injection Hpop as <- <-.
  apply lookup_lt_Some in Hy. rewrite length_delete by (by apply lookup_lt_is_Some_2).
  lia.
Qed.

Lemma length_list_insert_at i x l :
  length (list_insert_at i x l) = S (length l).
Proof.
  unfold list_insert_at. rewrite length_app. cbn [length].
  rewrite length_take, length_drop. lia.
Qed.

Lemma list_insert_at_in_range i x l :
  0 ≤ i ≤ Z.of_nat (length l) →
  list_insert_at i x l = take (Z.to_nat i) l ++ x :: drop (Z.to_nat i) l.
Proof.
  intros Hi. unfold list_insert_at. destruct (i <? 0) eqn:Hneg; [lia|].
  by rewrite Z.min_l by lia.
Qed.

(** Popping the slot that was just inserted gives the list back. *)
Lemma _tuple_pop_insert_at i x l :
  0 ≤ i ≤ Z.of_nat (length l) →
  _tuple_pop (list_insert_at i x l) i = Ok (l, x).
Proof.
  intros Hi. rewrite list_insert_at_in_range by done.
  assert (length (take (Z.to_nat i) l) = Z.to_nat i) as Hlen
    by (rewrite length_take; lia).
  rewrite (_tuple_pop_Ok _ i x); [|lia|].
  - do 2 f_equal. rewrite <-Hlen at 1. rewrite delete_middle. apply take_drop.
  - rewrite <-Hlen at 1. apply list_lookup_middle. done.
Qed.

Lemma filter_enumerate_from (idx s : Z) l :
  (filter (λ p : Z * A, p.1 ≠ idx) (enumerate_from s l)).*2
  = if decide (s ≤ idx) then delete (Z.to_nat (idx - s)) l else l.
Proof.
  revert s. induction l as [|x l IH]; intros s; simpl.
  - by case_decide.
  - rewrite filter_cons. simpl. destruct (decide (s ≠ idx)) as [Hne|Heq].
    + rewrite fmap_cons, IH. simpl. repeat case_decide; try lia; [|done].
      replace (Z.to_nat (idx - s)) with (S (Z.to_nat (idx - (s + 1)))) by lia. done.
    + apply dec_stable in Heq as ->. rewrite IH.
      rewrite decide_False by lia. rewrite decide_True by lia.
      by replace (idx - idx) with 0 by lia.
Qed.

(** [_tuple_space_filter] drops the space at a non-negative index, and
    nothing at a negative one. *)
Lemma _tuple_space_filter_delete l (idx : Z) :
  0 ≤ idx → _tuple_space_filter l idx = delete (Z.to_nat idx) l.
Proof.
  intros Hidx. unfold _tuple_space_filter, enumerate.
  rewrite filter_enumerate_from, decide_True by done.
  by replace (idx - 0) with idx by lia.
Qed.

Lemma _tuple_space_filter_negative l (idx : Z) :
  idx < 0 → _tuple_space_filter l idx = l.
Proof.
  intros Hidx. unfold _tuple_space_filter, enumerate.
  by rewrite filter_enumerate_from, decide_False by lia.
Qed.
End pop_insert.

(** ** [CurryEnv] *)

Section curry.
Context `{MultiAgentEnv.t Action Obs Reward Info Sp E}.
Context `{Agent.t Action Obs Ag}.
Implicit Types c : CurryEnv.t Obs Reward Sp E Ag.
Implicit Types st : gmap positive (list Action).

(** The constructor succeeds exactly when the two spaces of the environment
    have [num_agents] entries and there is at least one agent. *)
Lemma CurryEnv_init_Ok (env : E) (agent : Ag) (agent_idx : Z) :
  Z.of_nat (length (MultiAgentEnv.action_space env)) = MultiAgentEnv.num_agents env →
  Z.of_nat (length (MultiAgentEnv.observation_space env)) = MultiAgentEnv.num_agents env →
  1 ≤ MultiAgentEnv.num_agents env →
  CurryEnv.__init__ env agent agent_idx
  = Ok (CurryEnv.mk env (MultiAgentEnv.num_agents env - 1)
          (_tuple_space_filter (MultiAgentEnv.observation_space env) agent_idx)
          (_tuple_space_filter (MultiAgentEnv.action_space env) agent_idx)
          agent_idx agent None None).
Proof.
  intros Ha Ho Hn. unfold CurryEnv.__init__, MultiWrapper.__init__,
    getattr_unwrapped_num_agents.
  rewrite !bool_decide_eq_true_2 by done. done.
Qed.

Lemma CurryEnv_init_inv (env : E) (agent : Ag) (agent_idx : Z) c :
  CurryEnv.__init__ env agent agent_idx = Ok c →
  c = CurryEnv.mk env (MultiAgentEnv.num_agents env - 1)
        (_tuple_space_filter (MultiAgentEnv.observation_space env) agent_idx)
        (_tuple_space_filter (MultiAgentEnv.action_space env) agent_idx)
        agent_idx agent None None.
Proof.
  unfold CurryEnv.__init__, MultiWrapper.__init__, getattr_unwrapped_num_agents.
  intros Hc. repeat case_bool_decide; cbn in Hc; by simplify_eq.
Qed.

(** What [step] does once the policy has answered: the list behind
    [actions] gets the answer inserted, and the environment is stepped on
    that store. *)
Lemma CurryEnv_step_unfold c st actions ag a :
  Agent.get_action c.(CurryEnv._agent) c.(CurryEnv._last_obs) = (ag, Ok a) →
  CurryEnv.step c st actions =
    let c1 := CurryEnv.set_agent c ag in
    let st1 := <[actions := list_insert_at c.(CurryEnv._agent_to_fix) a (st !!! actions)]> st in
    let '(env, st2, r) := MultiAgentEnv.step c.(CurryEnv.env) st1 actions in
    let c2 := CurryEnv.set_env c1 env in
    match r with
    | Err e => (c2, st2, Err e)
    | Ok res =>
      match _tuple_pop res.(observations) c.(CurryEnv._agent_to_fix) with
      | Err e => (c2, st2, Err e)
      | Ok (observations, last_obs) =>
        match _tuple_pop res.(rewards) c.(CurryEnv._agent_to_fix) with
        | Err e => (CurryEnv.set_last_obs c2 (Some last_obs), st2, Err e)
        | Ok (rewards, last_reward) =>
          (CurryEnv.set_last_reward (CurryEnv.set_last_obs c2 (Some last_obs))
             (Some last_reward),
           st2, Ok (mkStep observations rewards res.(done) res.(infos)))
        end
      end
    end.
Proof. intros Hag. unfold CurryEnv.step. rewrite Hag. done. Qed.

Lemma CurryEnv_step_policy_Err c st actions ag e :
  Agent.get_action c.(CurryEnv._agent) c.(CurryEnv._last_obs) = (ag, Err e) →
  CurryEnv.step c st actions = (CurryEnv.set_agent c ag, st, Err e).
Proof. intros Hag. unfold CurryEnv.step. by rewrite Hag. Qed.

(** A call leaves [_agent_to_fix] alone, and the environment inside is
    either the one before or the one its own [step] or [reset] produced. *)
Lemma CurryEnv_step_frame c st actions c' st' r :
  CurryEnv.step c st actions = (c', st', r) →
  c'.(CurryEnv._agent_to_fix) = c.(CurryEnv._agent_to_fix) ∧
  (c'.(CurryEnv.env) = c.(CurryEnv.env) ∨
   ∃ st1 st2 r', MultiAgentEnv.step c.(CurryEnv.env) st1 actions = (c'.(CurryEnv.env), st2, r')).
Proof.
  unfold CurryEnv.step. intros Hstep.
  repeat case_match; simplify_eq; cbn; (split; [done|]); eauto 10.
Qed.

Lemma CurryEnv_reset_frame c c' r :
  CurryEnv.reset c = (c', r) →
  c'.(CurryEnv._agent_to_fix) = c.(CurryEnv._agent_to_fix) ∧
  ∃ r', MultiAgentEnv.reset c.(CurryEnv.env) = (c'.(CurryEnv.env), r').
Proof.
  unfold CurryEnv.reset. intros Hreset.
  repeat case_match; simplify_eq; cbn; (split; [done|]); eauto.
Qed.

Lemma reachable_inv (n : nat) (inv : E → Prop) c0 c :
  n_agent_env n inv → inv c0.(CurryEnv.env) → reachable c0 c →
  inv c.(CurryEnv.env) ∧ c.(CurryEnv._agent_to_fix) = c0.(CurryEnv._agent_to_fix).
Proof.
  intros Henv Hinv0 Hreach.
  induction Hreach as [|c st actions c' st' r _ [IHinv IHidx] Hstep
                       |c c' r _ [IHinv IHidx] Hreset].
  - done.
  - apply CurryEnv_step_frame in Hstep as [-> [->|(st1 & st2 & r' & Hstep)]];
      [done|]. split; [|done]. by eapply (inv_step n inv Henv).
  - apply CurryEnv_reset_frame in Hreset as [-> [r' Hreset]].
    split; [|done]. by eapply (inv_reset n inv Henv).
Qed.

Lemma reachable_agent_to_fix c0 c :
  reachable c0 c → c.(CurryEnv._agent_to_fix) = c0.(CurryEnv._agent_to_fix).
Proof.
  induction 1 as [|c st actions c' st' r _ IH Hstep|c c' r _ IH Hreset]; [done| |].
  - by apply CurryEnv_step_frame in Hstep as [-> _].
  - by apply CurryEnv_reset_frame in Hreset as [-> _].
Qed.
End curry.

Section curry_properties.
Context `{MultiAgentEnv.t Action Obs Reward Info Sp E}.
Context `{Agent.t Action Obs Ag}.
Implicit Types c : CurryEnv.t Obs Reward Sp E Ag.
Implicit Types st : gmap positive (list Action).

(** C8. Currying a valid agent index of an environment of [n >= 1] agents
    gives an environment with [num_agents = n - 1], whose two space
    sequences are the original ones without the curried index and have
    length [n - 1]. In every state it later goes through, [reset] and
    [step] return whenever the underlying call (and the policy) return, and
    what they return has [n - 1] observations and [n - 1] rewards. *)
Theorem CurryEnv_agent_count (n : nat) (inv : E → Prop)
    (env : E) (agent : Ag) (agent_idx : Z) :
  n_agent_env n inv → inv env → (1 ≤ n)%nat → 0 ≤ agent_idx < Z.of_nat n →
  ∃ c, CurryEnv.__init__ env agent agent_idx = Ok c ∧
    c.(CurryEnv.num_agents) = Z.of_nat n - 1 ∧
    c.(CurryEnv.observation_space)
      = delete (Z.to_nat agent_idx) (MultiAgentEnv.observation_space env) ∧
    c.(CurryEnv.action_space)
      = delete (Z.to_nat agent_idx) (MultiAgentEnv.action_space env) ∧
    length c.(CurryEnv.observation_space) = (n - 1)%nat ∧
    length c.(CurryEnv.action_space) = (n - 1)%nat ∧
    ∀ c', reachable c c' →
      (∀ c'' obs, CurryEnv.reset c' = (c'', Ok obs) → length obs = (n - 1)%nat) ∧
      (∀ st actions c'' st' res,
         CurryEnv.step c' st actions = (c'', st', Ok res) →
         length res.(observations) = (n - 1)%nat ∧
         length res.(rewards) = (n - 1)%nat) ∧
      (∀ e' obs0,
         MultiAgentEnv.reset c'.(CurryEnv.env) = (e', Ok obs0) →
         ∃ c'' obs, CurryEnv.reset c' = (c'', Ok obs) ∧ length obs = (n - 1)%nat) ∧
      (∀ st actions ag a e' st' res0,
         Agent.get_action c'.(CurryEnv._agent) c'.(CurryEnv._last_obs) = (ag, Ok a) →
         MultiAgentEnv.step c'.(CurryEnv.env)
           (<[actions := list_insert_at agent_idx a (st !!! actions)]> st) actions
           = (e', st', Ok res0) →
         ∃ c'' res, CurryEnv.step c' st actions = (c'', st', Ok res) ∧
                    length res.(observations) = (n - 1)%nat ∧
                    length res.(rewards) = (n - 1)%nat).
Proof.
  intros Henv Hinv Hn Hidx.
  pose proof (inv_num_agents n inv Henv env Hinv) as Hnum.
  pose proof (inv_observation_space n inv Henv env Hinv) as Hobs.
  pose proof (inv_action_space n inv Henv env Hinv) as Hact.
  eexists. split; [apply CurryEnv_init_Ok; lia|]. cbn.
  rewrite !_tuple_space_filter_delete by lia.
  rewrite !length_delete by (apply lookup_lt_is_Some_2; lia).
  split_and!; [lia|done|done|lia|lia|].
  intros c' Hreach.
  pose proof (λ Hi, reachable_inv n inv _ c' Henv Hi Hreach) as Hr.
  destruct (Hr Hinv) as [Hinv' Hfix]. clear Hr. cbn in Hfix.
  assert (∀ e' obs0 c'' obs,
    MultiAgentEnv.reset c'.(CurryEnv.env) = (e', Ok obs0) →
    CurryEnv.reset c' = (c'', Ok obs) → length obs = (n - 1)%nat) as Hreset_len.
  { intros e' obs0 c'' obs Hunder Hreset. unfold CurryEnv.reset in Hreset.
    rewrite Hunder in Hreset.
    pose proof (inv_reset_length n inv Henv _ _ _ Hinv' Hunder) as Hlen.
    destruct (_tuple_pop obs0 _) as [[obs' last]|] eqn:Hpop; [|done].
    apply _tuple_pop_length in Hpop. simplify_eq. lia. }
  assert (∀ st actions ag a e' st' res0 c'' st'' res,
    Agent.get_action c'.(CurryEnv._agent) c'.(CurryEnv._last_obs) = (ag, Ok a) →
    MultiAgentEnv.step c'.(CurryEnv.env)
      (<[actions := list_insert_at agent_idx a (st !!! actions)]> st) actions
      = (e', st', Ok res0) →
    CurryEnv.step c' st actions = (c'', st'', Ok res) →
    length res.(observations) = (n - 1)%nat ∧
    length res.(rewards) = (n - 1)%nat) as Hstep_len.
  { intros st actions ag a e' st' res0 c'' st'' res Hag Hunder Hstep.
    rewrite (CurryEnv_step_unfold _ _ _ _ _ Hag), Hfix in Hstep. cbn zeta in Hstep.
    rewrite Hunder in Hstep.
    destruct (inv_step_lengths n inv Henv _ _ _ _ _ _ Hinv' Hunder) as [Hlo Hlr].
    destruct (_tuple_pop (observations res0) _) as [[obs' last]|] eqn:Hpo; [|done].
    destruct (_tuple_pop (rewards res0) _) as [[rews' lastr]|] eqn:Hpr; [|done].
    apply _tuple_pop_length in Hpo, Hpr. simplify_eq. cbn. lia. }
  split_and!.
  - intros c'' obs Hreset.
    destruct (MultiAgentEnv.reset c'.(CurryEnv.env)) as [e' [obs0|e]] eqn:Hunder.
    + by eapply Hreset_len.
    + unfold CurryEnv.reset in Hreset. by rewrite Hunder in Hreset.
  - intros st actions c'' st' res Hstep.
    destruct (Agent.get_action c'.(CurryEnv._agent) c'.(CurryEnv._last_obs))
      as [ag [a|e]] eqn:Hag.
    + destruct (MultiAgentEnv.step c'.(CurryEnv.env)
        (<[actions := list_insert_at agent_idx a (st !!! actions)]> st) actions)
        as [[e' st0] [res0|e]] eqn:Hunder.
      * by eapply Hstep_len.
      * rewrite (CurryEnv_step_unfold _ _ _ _ _ Hag), Hfix in Hstep.
        cbn zeta in Hstep. by rewrite Hunder in Hstep.
    + by rewrite (CurryEnv_step_policy_Err _ _ _ _ _ Hag) in Hstep.
  - intros e' obs0 Hunder.
    pose proof (inv_reset_length n inv Henv _ _ _ Hinv' Hunder) as Hlen.
    destruct (_tuple_pop_in_range obs0 agent_idx) as (x & _ & Hpop); [lia|].
    assert (∃ c'' obs, CurryEnv.reset c' = (c'', Ok obs)) as (c'' & obs & Hreset).
    { unfold CurryEnv.reset. rewrite Hunder.
      cbn [CurryEnv._agent_to_fix CurryEnv.set_env]. rewrite Hfix, Hpop. eauto. }
    exists c'', obs. split; [done|]. by eapply Hreset_len.
  - intros st actions ag a e' st' res0 Hag Hunder.
    destruct (inv_step_lengths n inv Henv _ _ _ _ _ _ Hinv' Hunder) as [Hlo Hlr].
    destruct (_tuple_pop_in_range (observations res0) agent_idx) as (x & _ & Hpo); [lia|].
    destruct (_tuple_pop_in_range (rewards res0) agent_idx) as (y & _ & Hpr); [lia|].
    assert (∃ c'' res, CurryEnv.step c' st actions = (c'', st', Ok res))
      as (c'' & res & Hstep).
    { rewrite (CurryEnv_step_unfold _ _ _ _ _ Hag), Hfix. cbn zeta.
      rewrite Hunder, Hpo, Hpr. eauto. }
    exists c'', res. split; [done|]. by eapply Hstep_len.
Qed.

(** C9 (amended). Once the policy has returned its action, [step] has
    inserted it into the caller's own list, for a curried index that fits
    a machine word: the underlying environment is stepped on that same
    list, one element longer than it was passed, with the action at the
    curried index when that index lies between [0] and the length of the
    list. The insertion is not undone: the store that the caller finds
    after the call, returning or raising, is the one the underlying call
    left. So the caller's list ends as the old list with the action
    inserted, one longer, when the underlying environment leaves that list
    as it received it. *)
Theorem CurryEnv_step_mutates_actions c st actions c' st' r ag a :
  CurryEnv.step c st actions = (c', st', r) →
  Agent.get_action c.(CurryEnv._agent) c.(CurryEnv._last_obs) = (ag, Ok a) →
  fits_ssize_t c.(CurryEnv._agent_to_fix) →
  (∃ e' r',
     MultiAgentEnv.step c.(CurryEnv.env)
       (<[actions := list_insert_at c.(CurryEnv._agent_to_fix) a (st !!! actions)]> st)
       actions = (e', st', r')) ∧
  length (list_insert_at c.(CurryEnv._agent_to_fix) a (st !!! actions))
    = S (length (st !!! actions)) ∧
  (0 ≤ c.(CurryEnv._agent_to_fix) ≤ Z.of_nat (length (st !!! actions)) →
   list_insert_at c.(CurryEnv._agent_to_fix) a (st !!! actions)
     !! Z.to_nat c.(CurryEnv._agent_to_fix) = Some a ∧
   delete (Z.to_nat c.(CurryEnv._agent_to_fix))
     (list_insert_at c.(CurryEnv._agent_to_fix) a (st !!! actions))
   = st !!! actions) ∧
  ((MultiAgentEnv.step c.(CurryEnv.env)
      (<[actions := list_insert_at c.(CurryEnv._agent_to_fix) a (st !!! actions)]> st)
      actions).1.2 !!! actions
   = list_insert_at c.(CurryEnv._agent_to_fix) a (st !!! actions) →
   st' !!! actions = list_insert_at c.(CurryEnv._agent_to_fix) a (st !!! actions) ∧
   length (st' !!! actions) = S (length (st !!! actions))).
Proof.
  intros Hstep Hag _.
  rewrite (CurryEnv_step_unfold _ _ _ _ _ Hag) in Hstep. cbn zeta in Hstep.
  destruct (MultiAgentEnv.step _ _ _) as [[e' st2] r'] eqn:Hunder.
  assert (st' = st2) as -> by (repeat case_match; by simplify_eq).
  split_and!.
  - by exists e', r'.
  - apply length_list_insert_at.
  - intros Hidx.
    destruct (_tuple_pop_in_range
                (list_insert_at c.(CurryEnv._agent_to_fix) a (st !!! actions))
                c.(CurryEnv._agent_to_fix)) as (x & Hx & Hpop).
    { rewrite length_list_insert_at. lia. }
    rewrite _tuple_pop_insert_at in Hpop by done. by simplify_eq.
  - cbn. intros Hframe. split; [done|]. by rewrite Hframe, length_list_insert_at.
Qed.

(** C4 (amended). A [CurryEnv] that was never reset has no stored
    observation, and [step] does not refuse it: the policy is asked with
    the unset observation. If the policy raises, that is the error of the
    call; if it answers, the call goes on as any other step and returns
    whenever the environment returns enough observations and rewards. *)
Theorem CurryEnv_step_before_reset (env : E) (agent : Ag) (agent_idx : Z) c st actions :
  CurryEnv.__init__ env agent agent_idx = Ok c →
  c.(CurryEnv._last_obs) = None ∧
  (∀ ag e, Agent.get_action agent None = (ag, Err e) →
           (CurryEnv.step c st actions).2 = Err e) ∧
  (∀ ag a env' st' res obs o rews rw,
     Agent.get_action agent None = (ag, Ok a) →
     MultiAgentEnv.step env
       (<[actions := list_insert_at agent_idx a (st !!! actions)]> st) actions
       = (env', st', Ok res) →
     _tuple_pop res.(observations) agent_idx = Ok (obs, o) →
     _tuple_pop res.(rewards) agent_idx = Ok (rews, rw) →
     (CurryEnv.step c st actions).2 = Ok (mkStep obs rews res.(done) res.(infos))).
Proof.
  intros ->%CurryEnv_init_inv. split; [done|]. split.
  - intros ag e Hag. by rewrite (CurryEnv_step_policy_Err _ _ _ ag e).
  - intros ag a env' st' res obs o rews rw Hag Hunder Hpo Hpr.
    rewrite (CurryEnv_step_unfold _ _ _ ag a) by done. cbn.
    by rewrite Hunder, Hpo, Hpr.
Qed.
End curry_properties.

Section curry_scenario.
Context {float : Type}.
Context `{MultiAgentEnv.t Z Obs Reward Info (Space float) E}.
Context `{Agent.t Z Obs Ag}.

(** C1. A three-agent environment with action spaces [Discrete 2], curried
    at index [1], is a two-agent environment. In any state it goes through,
    before or after a reset, with a policy that always answers [0], its
    [step] on the list [[1, 1]] steps the underlying environment on
    [[1, 0, 1]] and returns, of the three observations and three rewards
    that come back, those of the original agents [0] and [2], in that
    order; those of agent [1] are kept for the policy. *)
Theorem CurryEnv_step_scenario (env : E) (agent : Ag) :
  MultiAgentEnv.num_agents env = 3 →
  MultiAgentEnv.action_space env = [Discrete 2; Discrete 2; Discrete 2] →
  length (MultiAgentEnv.observation_space env) = 3%nat →
  ∃ c,
    CurryEnv.__init__ env agent 1 = Ok c ∧
    c.(CurryEnv.num_agents) = 2 ∧
    c.(CurryEnv.action_space) = [Discrete 2; Discrete 2] ∧
    ∀ c1 (st : gmap positive (list Z)) (actions : positive)
      (env' : E) (st' : gmap positive (list Z))
      (o0 o1 o2 : Obs) (r0 r1 r2 : Reward) (d : bool) (i : Info),
      reachable c c1 →
      (∀ obs, (Agent.get_action c1.(CurryEnv._agent) obs).2 = Ok 0) →
      st !! actions = Some [1; 1] →
      MultiAgentEnv.step c1.(CurryEnv.env) (<[actions := [1; 0; 1]]> st) actions
        = (env', st', Ok (mkStep [o0; o1; o2] [r0; r1; r2] d i)) →
      ∃ c2,
        CurryEnv.step c1 st actions = (c2, st', Ok (mkStep [o0; o2] [r0; r2] d i)) ∧
        c2.(CurryEnv.env) = env' ∧
        c2.(CurryEnv._last_obs) = Some o1 ∧
        c2.(CurryEnv._last_reward) = Some r1.
Proof.
  intros Hnum Hact Hobs. eexists. split.
  { apply CurryEnv_init_Ok; [by rewrite Hact, Hnum|by rewrite Hobs, Hnum|lia]. }
  cbn. split; [lia|]. split; [by rewrite Hact|].
  intros c1 st actions env' st' o0 o1 o2 r0 r1 r2 d i Hreach Hpolicy Hst Hunder.
  apply reachable_agent_to_fix in Hreach. cbn in Hreach.
  destruct (Agent.get_action c1.(CurryEnv._agent) c1.(CurryEnv._last_obs))
    as [ag r] eqn:Hag.
  pose proof (Hpolicy c1.(CurryEnv._last_obs)) as Hr. rewrite Hag in Hr.
  cbn in Hr. subst r.
  rewrite (CurryEnv_step_unfold _ _ _ ag 0) by done. cbn zeta.
  rewrite Hreach, (lookup_total_correct _ _ _ Hst).
  change (list_insert_at 1 0 [1; 1]) with [1; 0; 1].
  rewrite Hunder. cbn [observations rewards].
  rewrite (_tuple_pop_Ok [o0; o1; o2] 1 o1), (_tuple_pop_Ok [r0; r1; r2] 1 r1)
    by (done || lia).
  eexists. split; [reflexivity|]. by cbn.
Qed.
End curry_scenario.

(** *** The properties on the example environment *)

Lemma length_enumerate_from {A} (l : list A) i : length (enumerate_from i l) = length l.
Proof. revert i. induction l as [|x l IH]; intros i; simpl; [done|]. by rewrite IH. Qed.

Lemma echo_n_agent_env n : n_agent_env n (λ e, echo_agents e = n).
Proof.
  split; cbn; unfold echo_step, echo_reset, echo_spaces.
  - intros e st actions e' st' r He Hstep. case_bool_decide; by simplify_eq.
  - intros e e' r He Hreset. by simplify_eq.
  - intros e He. by rewrite He.
  - intros e He. by rewrite length_replicate.
  - intros e He. by rewrite length_replicate.
  - intros e st actions e' st' res He Hstep. case_bool_decide; simplify_eq. cbn.
    unfold enumerate. rewrite length_enumerate_from, length_fmap, length_seqZ.
    split; [done|lia].
  - intros e e' obs He Hreset. simplify_eq.
    rewrite length_fmap, length_seqZ. lia.
Qed.

Lemma echo_curried_init :
  CurryEnv.__init__ (mkEcho 3 []) (mkConst 0 0) 1 = Ok echo_curried.
Proof. reflexivity. Qed.

(** The scenario on the example environment, after a reset: the
    environment has logged the call with [[1, 0, 1]]. *)
Lemma CurryEnv_step_scenario_witness :
  ∃ c2,
    CurryEnv.step (CurryEnv.reset echo_curried).1 {[ 1%positive := [1; 1] ]} 1%positive
      = (c2, {[ 1%positive := [1; 0; 1] ]},
         Ok (mkStep [(0, 1); (2, 1)] [0; 20] false ())) ∧
    c2.(CurryEnv.env) = mkEcho 3 [[1; 0; 1]] ∧
    c2.(CurryEnv._last_obs) = Some (1, 0) ∧
    c2.(CurryEnv._last_reward) = Some 10.
Proof.
  destruct (CurryEnv_step_scenario (mkEcho 3 []) (mkConst 0 0))
    as (c & Hc & _ & _ & Hstep); [reflexivity..|].
  assert (c = echo_curried) as -> by (rewrite echo_curried_init in Hc; congruence).
  apply (Hstep (CurryEnv.reset echo_curried).1 {[ 1%positive := [1; 1] ]} 1%positive
           (mkEcho 3 [[1; 0; 1]]) {[ 1%positive := [1; 0; 1] ]}
           (0, 1) (1, 0) (2, 1) 0 10 20 false ()).
  - by apply (reachable_reset _ echo_curried _ (CurryEnv.reset echo_curried).2);
      [apply reachable_init|].
  - intros obs. reflexivity.
  - reflexivity.
  - by vm_compute.
Defined.

Lemma CurryEnv_agent_count_witness :
  ∃ c, CurryEnv.__init__ (mkEcho 3 []) (mkConst 0 0) 1 = Ok c ∧
    c.(CurryEnv.num_agents) = 2 ∧
    length c.(CurryEnv.observation_space) = 2%nat ∧
    length c.(CurryEnv.action_space) = 2%nat ∧
    ∀ c', reachable c c' →
      (∀ c'' obs, CurryEnv.reset c' = (c'', Ok obs) → length obs = 2%nat) ∧
      (∀ st actions c'' st' res,
         CurryEnv.step c' st actions = (c'', st', Ok res) →
         length res.(observations) = 2%nat ∧ length res.(rewards) = 2%nat).
Proof.
  destruct (CurryEnv_agent_count 3 (λ e, echo_agents e = 3%nat)
              (mkEcho 3 []) (mkConst 0 0) 1)
    as (c & Hc & Hnum & _ & _ & Hobs & Hact & Hreach).
  - apply echo_n_agent_env.
  - reflexivity.
  - lia.
  - lia.
  - exists c. split; [exact Hc|]. split; [exact Hnum|].
    split; [exact Hobs|]. split; [exact Hact|].
    intros c' Hc'. destruct (Hreach c' Hc') as (Hreset & Hstep & _).
    split; [exact Hreset|exact Hstep].
Defined.

Lemma CurryEnv_step_mutates_actions_witness :
  list_insert_at 1 0 (({[ 1%positive := [1; 1] ]} : gmap positive (list Z)) !!! 1%positive)
    !! 1%nat = Some 0 ∧
  (CurryEnv.step echo_curried {[ 1%positive := [1; 1] ]} 1%positive).1.2 !!! 1%positive
    = list_insert_at 1 0 (({[ 1%positive := [1; 1] ]} : gmap positive (list Z)) !!! 1%positive) ∧
  length ((CurryEnv.step echo_curried {[ 1%positive := [1; 1] ]} 1%positive).1.2
            !!! 1%positive)
    = S (length (({[ 1%positive := [1; 1] ]} : gmap positive (list Z)) !!! 1%positive)).
Proof.
  destruct (CurryEnv_step_mutates_actions echo_curried {[ 1%positive := [1; 1] ]} 1%positive
           (CurryEnv.step echo_curried {[ 1%positive := [1; 1] ]} 1%positive).1.1
           (CurryEnv.step echo_curried {[ 1%positive := [1; 1] ]} 1%positive).1.2
           (CurryEnv.step echo_curried {[ 1%positive := [1; 1] ]} 1%positive).2
           (mkConst 0 1) 0) as (_ & _ & Hat & Hafter).
  - reflexivity.
  - reflexivity.
  - split; by vm_compute.
  - split.
    + apply Hat. split; by vm_compute.
    + apply Hafter. reflexivity.
Defined.

(** A [CurryEnv] stepped before any reset: the call returns, after the
    policy was asked once with the unset observation. *)
Lemma unreset_step_returns :
  CurryEnv.__init__ (mkEcho 3 []) (mkConst 0 0) 1 = Ok echo_curried ∧
  echo_curried.(CurryEnv._last_obs) = None ∧
  (CurryEnv.step echo_curried {[ 1%positive := [1; 1] ]} 1%positive).2
    = Ok (mkStep [(0, 1); (2, 1)] [0; 20] false ()) ∧
  const_unset_calls
    (CurryEnv.step echo_curried {[ 1%positive := [1; 1] ]} 1%positive).1.1.(CurryEnv._agent)
    = 1%nat.
Proof. by vm_compute. Qed.

Lemma CurryEnv_step_before_reset_witness :
  CurryEnv.__init__ (mkEcho 3 []) (mkConst 0 0) 1 = Ok echo_curried ∧
  echo_curried.(CurryEnv._last_obs) = None ∧
  (CurryEnv.step echo_curried {[ 1%positive := [1; 1] ]} 1%positive).2
    = Ok (mkStep [(0, 1); (2, 1)] [0; 20] false ()).
Proof.
  split; [reflexivity|].
  destruct (CurryEnv_step_before_reset (mkEcho 3 []) (mkConst 0 0) 1 echo_curried
              {[ 1%positive := [1; 1] ]} 1%positive) as (Hnone & _ & Hstep).
  - reflexivity.
  - split; [exact Hnone|].
    apply (Hstep (mkConst 0 1) 0 (mkEcho 3 [[1; 0; 1]]) {[ 1%positive := [1; 0; 1] ]}
             (mkStep [(0, 1); (1, 0); (2, 1)] [0; 10; 20] false ())
             [(0, 1); (2, 1)] (1, 0) [0; 20] 10).
    + reflexivity.
    + by vm_compute.
    + reflexivity.
    + reflexivity.
Defined.

(** ** [flatten_space] and [FlattenMultiEnv] *)

Section flatten.
Context {float : Type}.
Implicit Types spaces : list (Space float).

Lemma mapM_Ok_fmap {A B} (g : A → B) (l : list A) :
  mapM (λ x, Ok (g x)) l = Ok (g <$> l).
Proof. induction l as [|x l IH]; [done|]. simpl. by rewrite IH. Qed.

(** No class object is an instance of a space class. *)
Lemma isinstance_class (type c : pyclass) :
  c ≠ ClsType → isinstance (float:=float) (ObjClass type) c = false.
Proof. intros Hc. unfold isinstance. by rewrite bool_decide_eq_false_2. Qed.

(** With the name [type] unbound, the first space already stops the call. *)
Lemma flatten_space_NameError space spaces :
  flatten_space (space :: spaces) = Err NameError.
Proof. reflexivity. Qed.

Lemma flatten_space_empty : flatten_space ([] : list (Space float)) = Err KeyErrorEmptySet.
Proof. reflexivity. Qed.

(** Were [type] the builtin at that point, the three [isinstance] tests
    would still all be made on a class object, and fail. *)
Lemma flatten_space_body_builtin spaces :
  is_Err (flatten_space_body (Some builtin_type) spaces).
Proof.
  unfold flatten_space_body.
  rewrite (mapM_Ok_fmap (λ space, builtin_type (ObjSpace space))).
  cbn [mbind result_bind]. case_bool_decide; [by eexists|].
  destruct (remove_dups _) as [|c ?]; [by eexists|]. cbn [mbind result_bind].
  rewrite !isinstance_class by done. by eexists.
Qed.

Lemma flatten_space_is_Err spaces : is_Err (flatten_space spaces).
Proof. destruct spaces; by eexists. Qed.

(** C2. [flatten_space] returns no pair of functions at all, whatever the
    spaces are: it raises on every input, also under the reading where
    [type] is the builtin. No round trip can be run on the code. *)
Theorem flatten_space_never_returns spaces :
  is_Err (flatten_space spaces) ∧
  is_Err (flatten_space_body (Some builtin_type) spaces).
Proof. split; [apply flatten_space_is_Err|apply flatten_space_body_builtin]. Qed.

(** C3. On the tuple [(Discrete(2), Discrete(2))] the call raises
    [NameError]; with [type] read as the builtin it would raise
    [NotImplementedError]. No combined space is returned. *)
Theorem flatten_space_discrete_raises :
  flatten_space [Discrete (float:=float) 2; Discrete 2] = Err NameError ∧
  flatten_space_body (Some builtin_type) [Discrete (float:=float) 2; Discrete 2]
    = Err NotImplementedError.
Proof. split; reflexivity. Qed.

(** The [flatten] closure of the [Box] branch calls a function that numpy
    does not have. *)
Lemma box_flatten_raises (x : Value float) : np_flatten x = Err AttributeError.
Proof. reflexivity. Qed.

Context `{MultiAgentEnv.t (Value float) (Value float) Reward Info (Space float) E}.
Implicit Types self : FlattenMultiEnv.t float Reward E.

(** The constructor calls [flatten_space] first, so it raises as well. *)
Lemma FlattenMultiEnv_init_raises (env : E) (reward_agg : list Reward → Reward) :
  is_Err (FlattenMultiEnv.__init__ env reward_agg).
Proof.
  unfold FlattenMultiEnv.__init__.
  destruct (flatten_space_is_Err (MultiAgentEnv.observation_space env)) as [e ->].
  by eexists.
Qed.

(** With no agent there is no first observation: the subscript raises. *)
Lemma FlattenMultiEnv_reset_no_agents self (env' : E) :
  MultiAgentEnv.reset self.(FlattenMultiEnv.env) = (env', Ok []) →
  FlattenMultiEnv.reset self = (FlattenMultiEnv.set_env self env', Err IndexError).
Proof. intros Hreset. unfold FlattenMultiEnv.reset. by rewrite Hreset. Qed.

(** [step] maps the whole tuple of observations. *)
Lemma FlattenMultiEnv_step_flattens self st action xs env' st' res flat :
  self.(FlattenMultiEnv._act_unflatten) action = Ok xs →
  MultiAgentEnv.step self.(FlattenMultiEnv.env) (<[fresh (dom st) := xs]> st)
    (fresh (dom st)) = (env', st', Ok res) →
  self.(FlattenMultiEnv._obs_flatten) (VSeq res.(observations)) = Ok flat →
  FlattenMultiEnv.step self st action
  = (FlattenMultiEnv.set_env self env', st',
     Ok (flat, self.(FlattenMultiEnv.reward_agg) res.(rewards), res.(done), res.(infos))).
Proof.
  intros Hun Hstep Hflat. unfold FlattenMultiEnv.step.
  rewrite Hun, Hstep. cbn [FlattenMultiEnv._obs_flatten FlattenMultiEnv.set_env].
  by rewrite Hflat.
Qed.

(** C10 (amended). When the underlying [reset] returns at least one
    observation, [FlattenMultiEnv.reset] returns the first of them, as it
    is, and the environment after the reset; the observation mapping plays
    no part, the result is the same under any other [_obs_flatten]. When
    the underlying [reset] returns no observation, [reset] raises
    [IndexError]. [step], in contrast, returns the observation mapping
    applied to the whole tuple of observations, with the aggregated
    rewards. *)
Theorem FlattenMultiEnv_reset_first_observation self :
  (∀ (env' : E) (first : Value float) (others : list (Value float)),
     MultiAgentEnv.reset self.(FlattenMultiEnv.env) = (env', Ok (first :: others)) →
     FlattenMultiEnv.reset self = (FlattenMultiEnv.set_env self env', Ok first) ∧
     ∀ f, (FlattenMultiEnv.reset
             (FlattenMultiEnv.mk self.(FlattenMultiEnv.env) f
                self.(FlattenMultiEnv._act_unflatten)
                self.(FlattenMultiEnv.reward_agg))).2
          = Ok first) ∧
  (∀ env' : E,
     MultiAgentEnv.reset self.(FlattenMultiEnv.env) = (env', Ok []) →
     FlattenMultiEnv.reset self = (FlattenMultiEnv.set_env self env', Err IndexError)) ∧
  (∀ (st : gmap positive (list (Value float))) action xs (env' : E) st' res flat,
     self.(FlattenMultiEnv._act_unflatten) action = Ok xs →
     MultiAgentEnv.step self.(FlattenMultiEnv.env) (<[fresh (dom st) := xs]> st)
       (fresh (dom st)) = (env', st', Ok res) →
     self.(FlattenMultiEnv._obs_flatten) (VSeq res.(observations)) = Ok flat →
     FlattenMultiEnv.step self st action
     = (FlattenMultiEnv.set_env self env', st',
        Ok (flat, self.(FlattenMultiEnv.reward_agg) res.(rewards),
            res.(done), res.(infos)))).
Proof.
  split_and!.
  - intros env' first others Hreset. split.
    + unfold FlattenMultiEnv.reset. by rewrite Hreset.
    + intros f. unfold FlattenMultiEnv.reset. cbn [FlattenMultiEnv.env].
      by rewrite Hreset.
  - apply FlattenMultiEnv_reset_no_agents.
  - apply FlattenMultiEnv_step_flattens.
Qed.
End flatten.

(** On an environment without agents the underlying [reset] returns the
    empty tuple, and [FlattenMultiEnv.reset] raises. *)
Lemma FlattenMultiEnv_reset_zero_agents :
  MultiAgentEnv.num_agents (mkCount 0) = 0 ∧
  MultiAgentEnv.reset (mkCount 0) = (mkCount 0, Ok []) ∧
  (FlattenMultiEnv.reset
     (FlattenMultiEnv.mk (mkCount 0) Ok Ok (foldr Z.add 0))).2 = Err IndexError.
Proof. by split_and!. Qed.

Lemma FlattenMultiEnv_reset_first_observation_witness :
  (FlattenMultiEnv.reset (FlattenMultiEnv.mk (mkCount 3) Ok Ok (foldr Z.add 0))).2
    = Ok (VInt 0) ∧
  (FlattenMultiEnv.reset (FlattenMultiEnv.mk (mkCount 0) Ok Ok (foldr Z.add 0))).2
    = Err IndexError ∧
  (FlattenMultiEnv.step (FlattenMultiEnv.mk (mkCount 3) Ok Ok (foldr Z.add 0))
     ∅ [VInt 1; VInt 1; VInt 1]).2
    = Ok (VSeq [VInt 0; VInt 1; VInt 2], 3, false, ()).
Proof.
  destruct (FlattenMultiEnv_reset_first_observation
              (FlattenMultiEnv.mk (mkCount 3) Ok Ok (foldr Z.add 0)))
    as (Hreset & _ & Hstep).
  destruct (FlattenMultiEnv_reset_first_observation
              (FlattenMultiEnv.mk (mkCount 0) Ok Ok (foldr Z.add 0)))
    as (_ & Hnone & _).
  split_and!.
  - destruct (Hreset (mkCount 3) (VInt 0) [VInt 1; VInt 2] eq_refl) as [-> _].
    reflexivity.
  - rewrite (Hnone (mkCount 0) eq_refl). reflexivity.
  - rewrite (Hstep ∅ [VInt 1; VInt 1; VInt 1] [VInt 1; VInt 1; VInt 1] (mkCount 3)
               (<[fresh (dom (∅ : gmap positive (list (Value Empty_set)))) :=
                    [VInt 1; VInt 1; VInt 1]]> ∅)
               (mkStep [VInt 0; VInt 1; VInt 2] [1; 1; 1] false ())
               (VSeq [VInt 0; VInt 1; VInt 2]) eq_refl eq_refl eq_refl).
    reflexivity.
Defined.

(** ** The vectorised constructors *)

Section vec.
Context `{MultiAgentEnv.t Action Obs Reward Info Sp E}.

Lemma _TupleToDict_init_Ok (e : E) :
  spaces_match e → _TupleToDict.__init__ e = Ok (tuple_to_dict_of e).
Proof.
  intros [Ha Ho]. unfold _TupleToDict.__init__, MultiWrapper.__init__,
    getattr_unwrapped_num_agents.
  by rewrite !bool_decide_eq_true_2 by done.
Qed.

Lemma decorated_factories_Ok (env_fns : list (() → result E)) (envs : list E) :
  Forall2 (λ fn e, fn () = Ok e) env_fns envs →
  Forall spaces_match envs →
  mapM (λ fn, fn ()) (_decorate_tuple_to_dict <$> env_fns) = Ok (tuple_to_dict_of <$> envs).
Proof.
  intros Hfns Henvs. apply mapM_Ok_Forall2.
  apply Forall2_fmap_l, Forall2_fmap_r.
  induction Hfns as [|fn e fns es Hfn _ IH]; [constructor|].
  apply Forall_cons in Henvs as [He Hes]. constructor; [|by apply IH].
  unfold compose, _decorate_tuple_to_dict. cbn beta. rewrite Hfn.
  cbn [mbind result_bind]. by apply _TupleToDict_init_Ok.
Qed.

(** C5 (amended). The constructor compares no [num_agents]. When every
    factory returns an environment whose own spaces match its own
    [num_agents], and the first environment has at least one agent,
    construction succeeds: the adapter has one slot per factory, and its
    [num_agents] and its spaces are those of the first environment. *)
Theorem make_dummy_vec_multi_env_first_env
    (env_fns : list (() → result E)) (e0 : E) (es : list E) :
  Forall2 (λ fn e, fn () = Ok e) env_fns (e0 :: es) →
  Forall spaces_match (e0 :: es) →
  1 ≤ MultiAgentEnv.num_agents e0 →
  ∃ v, make_dummy_vec_multi_env env_fns = Ok v ∧
       v.(_DictToTuple.num_agents) = MultiAgentEnv.num_agents e0 ∧
       v.(_DictToTuple.num_envs) = length env_fns ∧
       v.(_DictToTuple.action_space) = MultiAgentEnv.action_space e0 ∧
       v.(_DictToTuple.observation_space) = MultiAgentEnv.observation_space e0.
Proof.
  intros Hfns Henvs Hn.
  pose proof (Forall_inv Henvs) as [Ha Ho].
  unfold make_dummy_vec_multi_env, _make_vec_multi_env,
    _DummyVecMultiEnv.__init__, DummyVecEnv.__init__.
  rewrite (decorated_factories_Ok env_fns (e0 :: es) Hfns Henvs).
  cbn -[_dict_to_tuple _tuple_to_dict]. unfold _DictToTuple.__init__.
  cbn -[_dict_to_tuple _tuple_to_dict].
  assert (MultiAgentEnv.action_space e0 ≠ []) as Hacts
    by (intros Hnil; rewrite Hnil in Ha; simpl in Ha; lia).
  assert (MultiAgentEnv.observation_space e0 ≠ []) as Hobs
    by (intros Hnil; rewrite Hnil in Ho; simpl in Ho; lia).
  rewrite !_dict_to_tuple_to_dict by done.
  cbn [mbind result_bind]. eexists. split; [done|]. cbn.
  by rewrite length_fmap.
Qed.

(** The worker-based constructor reads [num_agents] from one more
    environment made by the first factory, whatever the collaborator that
    starts the workers is. *)
Lemma make_subproc_vec_multi_env_first_env
    (SubprocVecEnv_init : list (() → result (_TupleToDict.t Sp E)) → result (VecEnv.t Sp))
    (env_fns : list (() → result E)) (fn0 : () → result E) (e0 : E)
    (b : VecEnv.t Sp) (acts obs : list Sp) :
  SubprocVecEnv_init (_decorate_tuple_to_dict <$> env_fns) = Ok b →
  env_fns !! 0%nat = Some fn0 → fn0 () = Ok e0 → spaces_match e0 →
  _dict_to_tuple b.(VecEnv.action_space) = Ok acts →
  _dict_to_tuple b.(VecEnv.observation_space) = Ok obs →
  ∃ v, make_subproc_vec_multi_env SubprocVecEnv_init env_fns = Ok v ∧
       v.(_DictToTuple.num_agents) = MultiAgentEnv.num_agents e0.
Proof.
  intros Hb Hfn0 He0 Hmatch Hacts Hobs.
  unfold make_subproc_vec_multi_env, _make_vec_multi_env, _SubprocVecMultiEnv.__init__.
  rewrite Hb. cbn [mbind result_bind]. unfold getitem.
  rewrite list_lookup_fmap, Hfn0. cbn [fmap option_fmap option_map mbind result_bind].
  unfold _decorate_tuple_to_dict at 1. rewrite He0. cbn [mbind result_bind].
  rewrite (_TupleToDict_init_Ok e0 Hmatch). cbn [mbind result_bind].
  unfold _DictToTuple.__init__, VecMultiEnv.__init__, id.
  cbn [VecMultiEnv.action_space VecMultiEnv.observation_space].
  rewrite Hacts, Hobs. cbn [mbind result_bind]. by eexists.
Qed.
End vec.

(** Two factories whose environments have two and three agents: the
    construction succeeds, with the first environment's [num_agents]. *)
Lemma make_dummy_vec_multi_env_mismatch :
  MultiAgentEnv.num_agents (mkEcho 2 []) ≠ MultiAgentEnv.num_agents (mkEcho 3 []) ∧
  ∃ v, make_dummy_vec_multi_env [λ _, Ok (mkEcho 2 []); λ _, Ok (mkEcho 3 [])] = Ok v ∧
       v.(_DictToTuple.num_agents) = 2 ∧
       v.(_DictToTuple.num_envs) = 2%nat.
Proof. split; [done|]. eexists. split; [by vm_compute|]. done. Qed.

Lemma make_dummy_vec_multi_env_first_env_witness :
  ∃ v, make_dummy_vec_multi_env [λ _, Ok (mkEcho 2 []); λ _, Ok (mkEcho 3 [])] = Ok v ∧
       v.(_DictToTuple.num_agents) = 2 ∧
       v.(_DictToTuple.num_envs) = 2%nat ∧
       v.(_DictToTuple.action_space) = [Discrete 2; Discrete 2] ∧
       v.(_DictToTuple.observation_space) = [Discrete 2; Discrete 2].
Proof.
  refine (@make_dummy_vec_multi_env_first_env _ _ _ _ _ _ echo_env
            [λ _, Ok (mkEcho 2 []); λ _, Ok (mkEcho 3 [])] (mkEcho 2 []) [mkEcho 3 []]
            _ _ _).
  - repeat constructor.
  - repeat constructor.
  - cbn. lia.
Defined.

(** * Further properties *)

(** ** Popping, inserting and filtering by index *)

Section index_properties.
Context {A : Type}.
Implicit Types l : list A.

Lemma py_index_in_range l (i : Z) :
  - Z.of_nat (length l) ≤ i < Z.of_nat (length l) →
  py_index (length l) i = i `mod` Z.of_nat (length l) ∧
  0 ≤ i `mod` Z.of_nat (length l) < Z.of_nat (length l).
Proof.
  intros Hi. unfold py_index. destruct (i <? 0) eqn:Hneg.
  - assert (i `mod` Z.of_nat (length l) = i + Z.of_nat (length l)) as ->; [|lia].
    symmetry. apply (Z.mod_unique_pos _ _ (-1)); lia.
  - rewrite Z.mod_small by lia. lia.
Qed.

(** X1. [_tuple_pop] accepts the indices from [-len] to [len - 1]: it
    returns the element at that position, counted from the end for a
    negative index, and the sequence without it, one shorter. Any other
    index that fits a machine word raises [IndexError]. *)
Theorem tuple_pop_spec l (i : Z) :
  (- Z.of_nat (length l) ≤ i < Z.of_nat (length l) →
   ∃ x, l !! Z.to_nat (i `mod` Z.of_nat (length l)) = Some x ∧
        _tuple_pop l i = Ok (delete (Z.to_nat (i `mod` Z.of_nat (length l))) l, x) ∧
        length l = S (length (delete (Z.to_nat (i `mod` Z.of_nat (length l))) l))) ∧
  (fits_ssize_t i → ¬ (- Z.of_nat (length l) ≤ i < Z.of_nat (length l)) →
   _tuple_pop l i = Err IndexError).
Proof.
  split.
  - intros Hi. destruct (py_index_in_range l i Hi) as [Hidx Hmod].
    destruct (lookup_lt_is_Some_2 l (Z.to_nat (i `mod` Z.of_nat (length l))))
      as [x Hx]; [lia|].
    assert (_tuple_pop l i
            = Ok (delete (Z.to_nat (i `mod` Z.of_nat (length l))) l, x)) as Hpop.
    { unfold _tuple_pop, list_pop. rewrite Hidx.
      destruct (_ <? 0) eqn:Hneg; [lia|]. by rewrite Hx. }
    exists x. split; [done|]. split; [done|]. by eapply _tuple_pop_length.
  - intros _ Hi. unfold _tuple_pop, list_pop, py_index.
    destruct (i <? 0) eqn:Hneg.
    + destruct (i + Z.of_nat (length l) <? 0) eqn:Hneg'; [done|]. lia.
    + rewrite Hneg. rewrite (proj2 (lookup_ge_None l (Z.to_nat i))); [done|]. lia.
Qed.

(** X2. Inserting at an index from [0] to [len] and popping at the same
    index gives the sequence and the element back. At a larger index that
    fits a machine word the element is appended, and the pop raises
    [IndexError]. *)
Theorem insert_then_pop l (i : Z) (x : A) :
  (0 ≤ i ≤ Z.of_nat (length l) → _tuple_pop (list_insert_at i x l) i = Ok (l, x)) ∧
  (Z.of_nat (length l) < i → fits_ssize_t i →
   list_insert_at i x l = l ++ [x] ∧
   _tuple_pop (list_insert_at i x l) i = Err IndexError).
Proof.
  split; [apply _tuple_pop_insert_at|].
  intros Hi _.
  assert (list_insert_at i x l = l ++ [x]) as Hins.
  { unfold list_insert_at. destruct (i <? 0) eqn:Hneg; [lia|].
    rewrite Z.min_r by lia. rewrite Nat2Z.id.
    by rewrite firstn_all, drop_all. }
  split; [done|]. unfold _tuple_pop, list_pop, py_index.
  destruct (i <? 0) eqn:Hneg; [lia|]. rewrite Hneg.
  rewrite (proj2 (lookup_ge_None _ (Z.to_nat i))); [done|].
  rewrite length_list_insert_at. lia.
Qed.

(** X3. With a negative index from [-len] to [-1], inserting and popping
    do not undo each other: the element goes in before position
    [len + i], and the pop takes out the element that was at that
    position. What is left is the sequence with that element replaced by
    the inserted one. *)
Theorem insert_then_pop_negative l (i : Z) (x : A) :
  - Z.of_nat (length l) ≤ i < 0 →
  ∃ y, l !! Z.to_nat (i + Z.of_nat (length l)) = Some y ∧
       _tuple_pop (list_insert_at i x l) i
       = Ok (<[Z.to_nat (i + Z.of_nat (length l)) := x]> l, y).
Proof.
  intros Hi. remember (Z.to_nat (i + Z.of_nat (length l))) as j eqn:Hj.
  destruct (lookup_lt_is_Some_2 l j) as [y Hy]; [lia|].
  exists y. split; [done|].
  assert (list_insert_at i x l = take j l ++ x :: drop j l) as ->.
  { unfold list_insert_at. destruct (i <? 0) eqn:Hneg; [|lia].
    rewrite Z.max_r by lia. by rewrite <-Hj. }
  pose proof (lookup_lt_Some _ _ _ Hy) as Hjl.
  assert (length (take j l) = j) as Hlen by (rewrite length_take; lia).
  unfold _tuple_pop, list_pop, py_index. destruct (i <? 0) eqn:Hneg; [|lia].
  rewrite length_app, Hlen. cbn [length]. rewrite length_drop.
  destruct (i + _ <? 0) eqn:Hneg'; [apply Z.ltb_lt in Hneg'; lia|].
  replace (Z.to_nat (i + Z.of_nat (j + S (length l - j)))) with (S j) by lia.
  assert ((take j l ++ x :: drop j l) !! S j = Some y) as ->.
  { rewrite (drop_S l y j Hy), lookup_app_r by lia. rewrite Hlen.
    by replace (S j - j)%nat with 1%nat by lia. }
  cbn [mbind result_bind]. do 2 f_equal.
  rewrite insert_take_drop by lia.
  replace (S j) with (length (take j l ++ [x])) at 1
    by (rewrite length_app, Hlen; simpl; lia).
  rewrite (drop_S l y j Hy).
  replace (take j l ++ x :: y :: drop (S j) l)
    with ((take j l ++ [x]) ++ y :: drop (S j) l) by (by rewrite <-app_assoc).
  rewrite delete_middle. by rewrite <-app_assoc.
Qed.

(** X4. [_tuple_space_filter] removes the space at an index from [0] to
    [len - 1] and leaves the sequence as it is for every other index, a
    negative one included: unlike [_tuple_pop] it does not count from the
    end. *)
Theorem tuple_space_filter_spec l (idx : Z) :
  _tuple_space_filter l idx
  = (if decide (0 ≤ idx < Z.of_nat (length l)) then delete (Z.to_nat idx) l else l) ∧
  length (_tuple_space_filter l idx)
  = if decide (0 ≤ idx < Z.of_nat (length l)) then (length l - 1)%nat else length l.
Proof.
  assert (_tuple_space_filter l idx
    = if decide (0 ≤ idx < Z.of_nat (length l)) then delete (Z.to_nat idx) l else l) as ->.
  { destruct (decide (0 ≤ idx)) as [Hpos|Hneg].
    - rewrite _tuple_space_filter_delete by done. case_decide; [done|].
      rewrite delete_take_drop, take_ge, drop_ge by lia. by rewrite app_nil_r.
    - rewrite _tuple_space_filter_negative by lia. by rewrite decide_False by lia. }
  split; [done|]. case_decide; [|done].
  rewrite length_delete by (apply lookup_lt_is_Some_2; lia). done.
Qed.
End index_properties.

Lemma tuple_pop_spec_witness :
  _tuple_pop [10; 20; 30] (-1) = Ok ([10; 20], 30) ∧
  _tuple_pop [10; 20; 30] 3 = Err IndexError.
Proof.
  destruct (tuple_pop_spec [10; 20; 30] (-1)) as [Hin _].
  destruct (tuple_pop_spec [10; 20; 30] 3) as [_ Hout].
  split.
  - destruct Hin as (x & Hx & Hpop & _); [simpl; lia|].
    change (Z.to_nat (-1 `mod` Z.of_nat (length [10; 20; 30]))) with 2%nat in Hx, Hpop.
    injection Hx as <-. exact Hpop.
  - apply Hout; [split; by vm_compute|simpl; lia].
Defined.

Lemma insert_then_pop_witness :
  _tuple_pop (list_insert_at 1 0 [1; 1]) 1 = Ok ([1; 1], 0) ∧
  _tuple_pop (list_insert_at 5 0 [1; 1]) 5 = Err IndexError.
Proof.
  destruct (insert_then_pop [1; 1] 1 0) as [Hin _].
  destruct (insert_then_pop [1; 1] 5 0) as [_ Hout].
  split; [apply Hin; simpl; lia|apply Hout; [simpl; lia|split; by vm_compute]].
Defined.

Lemma insert_then_pop_negative_witness :
  _tuple_pop (list_insert_at (-1) 0 [7; 8]) (-1) = Ok ([7; 0], 8).
Proof.
  destruct (insert_then_pop_negative [7; 8] (-1) 0) as (y & Hy & Hpop).
  - simpl. lia.
  - change (Z.to_nat (-1 + Z.of_nat (length [7; 8]))) with 1%nat in Hy, Hpop.
    injection Hy as <-. exact Hpop.
Defined.

(** ** More on [CurryEnv] *)

(** A curried environment is used as an environment below. *)
#[local] Existing Instance CurryEnv.multi_agent_env.

Section curry_further.
Context `{MultiAgentEnv.t Action Obs Reward Info Sp E}.
Context `{Agent.t Action Obs Ag}.
Implicit Types c : CurryEnv.t Obs Reward Sp E Ag.
Implicit Types st : gmap positive (list Action).

Lemma _tuple_pop_IndexError {A} (l : list A) (i : Z) :
  ¬ (- Z.of_nat (length l) ≤ i < Z.of_nat (length l)) → _tuple_pop l i = Err IndexError.
Proof.
  intros Hi. unfold _tuple_pop, list_pop, py_index.
  destruct (i <? 0) eqn:Hneg.
  - destruct (i + Z.of_nat (length l) <? 0) eqn:Hneg'; [done|].
    apply Z.ltb_lt in Hneg. apply Z.ltb_ge in Hneg'. lia.
  - rewrite Hneg. rewrite (proj2 (lookup_ge_None l (Z.to_nat i))); [done|].
    apply Z.ltb_ge in Hneg. lia.
Qed.

(** The attributes set by the constructor are never assigned again. *)
Lemma CurryEnv_step_static c st actions c' st' r :
  CurryEnv.step c st actions = (c', st', r) →
  c'.(CurryEnv.num_agents) = c.(CurryEnv.num_agents) ∧
  c'.(CurryEnv.observation_space) = c.(CurryEnv.observation_space) ∧
  c'.(CurryEnv.action_space) = c.(CurryEnv.action_space).
Proof.
  unfold CurryEnv.step. intros Hstep. by repeat case_match; simplify_eq.
Qed.

Lemma CurryEnv_reset_static c c' r :
  CurryEnv.reset c = (c', r) →
  c'.(CurryEnv.num_agents) = c.(CurryEnv.num_agents) ∧
  c'.(CurryEnv.observation_space) = c.(CurryEnv.observation_space) ∧
  c'.(CurryEnv.action_space) = c.(CurryEnv.action_space).
Proof.
  unfold CurryEnv.reset. intros Hreset. by repeat case_match; simplify_eq.
Qed.

Lemma CurryEnv_step_lengths (n : nat) (inv : E → Prop) c st actions c' st' res :
  n_agent_env n inv → inv c.(CurryEnv.env) →
  CurryEnv.step c st actions = (c', st', Ok res) →
  length res.(observations) = (n - 1)%nat ∧ length res.(rewards) = (n - 1)%nat.
Proof.
  intros Henv Hinv Hstep. unfold CurryEnv.step in Hstep.
  destruct (Agent.get_action _ _) as [ag [a|e]]; [|done].
  destruct (MultiAgentEnv.step _ _ _) as [[e' st0] [res0|e]] eqn:Hunder; [|done].
  destruct (inv_step_lengths n inv Henv _ _ _ _ _ _ Hinv Hunder) as [Hlo Hlr].
  cbn in Hstep.
  destruct (_tuple_pop (observations res0) _) as [[obs' last]|] eqn:Hpo; [|done].
  destruct (_tuple_pop (rewards res0) _) as [[rews' lastr]|] eqn:Hpr; [|done].
  apply _tuple_pop_length in Hpo, Hpr. simplify_eq. cbn. lia.
Qed.

Lemma CurryEnv_reset_length (n : nat) (inv : E → Prop) c c' obs :
  n_agent_env n inv → inv c.(CurryEnv.env) →
  CurryEnv.reset c = (c', Ok obs) → length obs = (n - 1)%nat.
Proof.
  intros Henv Hinv Hreset. unfold CurryEnv.reset in Hreset.
  destruct (MultiAgentEnv.reset _) as [e' [obs0|e]] eqn:Hunder; [|done].
  pose proof (inv_reset_length n inv Henv _ _ _ Hinv Hunder) as Hlen.
  cbn in Hreset.
  destruct (_tuple_pop obs0 _) as [[obs' last]|] eqn:Hpop; [|done].
  apply _tuple_pop_length in Hpop. simplify_eq. lia.
Qed.

(** X5. The constructor checks the environment and nothing else: it
    returns when both space sequences have [num_agents] entries and there
    is at least one agent, and fails an assertion otherwise. The index is
    stored as given, whatever it is. *)
Theorem CurryEnv_init_spec (env : E) (agent : Ag) (agent_idx : Z) :
  (spaces_match env ∧ 1 ≤ MultiAgentEnv.num_agents env →
   CurryEnv.__init__ env agent agent_idx
   = Ok (CurryEnv.mk env (MultiAgentEnv.num_agents env - 1)
           (_tuple_space_filter (MultiAgentEnv.observation_space env) agent_idx)
           (_tuple_space_filter (MultiAgentEnv.action_space env) agent_idx)
           agent_idx agent None None)) ∧
  (¬ (spaces_match env ∧ 1 ≤ MultiAgentEnv.num_agents env) →
   CurryEnv.__init__ env agent agent_idx = Err AssertionError).
Proof.
  split.
  - intros [[Ha Ho] Hn]. by apply CurryEnv_init_Ok.
  - intros Hnot. unfold CurryEnv.__init__, MultiWrapper.__init__,
      getattr_unwrapped_num_agents, spaces_match in *.
    repeat case_bool_decide; try done. tauto.
Qed.

(** X6. An index that fits a machine word and that no list of [n] entries
    has (below [-n], or from [n] on) is accepted by the constructor, but
    then every [reset] and every [step] whose underlying call returns
    raises [IndexError]. *)
Theorem CurryEnv_index_out_of_range (n : nat) (inv : E → Prop)
    (env : E) (agent : Ag) (agent_idx : Z) :
  n_agent_env n inv → inv env → (1 ≤ n)%nat →
  fits_ssize_t agent_idx →
  agent_idx < - Z.of_nat n ∨ Z.of_nat n ≤ agent_idx →
  ∃ c, CurryEnv.__init__ env agent agent_idx = Ok c ∧
    (∀ e' obs0, MultiAgentEnv.reset env = (e', Ok obs0) →
                (CurryEnv.reset c).2 = Err IndexError) ∧
    (∀ st actions ag a e' st' res0,
       Agent.get_action agent None = (ag, Ok a) →
       MultiAgentEnv.step env
         (<[actions := list_insert_at agent_idx a (st !!! actions)]> st) actions
         = (e', st', Ok res0) →
       (CurryEnv.step c st actions).2 = Err IndexError).
Proof.
  intros Henv Hinv Hn _ Hidx.
  pose proof (inv_num_agents n inv Henv env Hinv) as Hnum.
  pose proof (inv_observation_space n inv Henv env Hinv) as Hobs.
  pose proof (inv_action_space n inv Henv env Hinv) as Hact.
  eexists. split; [apply CurryEnv_init_Ok; lia|]. split.
  - intros e' obs0 Hunder.
    pose proof (inv_reset_length n inv Henv _ _ _ Hinv Hunder) as Hlen.
    unfold CurryEnv.reset. cbn [CurryEnv.env]. rewrite Hunder.
    cbn [CurryEnv._agent_to_fix CurryEnv.set_env].
    by rewrite _tuple_pop_IndexError by lia.
  - intros st actions ag a e' st' res0 Hag Hunder.
    destruct (inv_step_lengths n inv Henv _ _ _ _ _ _ Hinv Hunder) as [Hlo Hlr].
    rewrite (CurryEnv_step_unfold _ _ _ ag a) by done. cbn zeta.
    cbn [CurryEnv._agent_to_fix CurryEnv.env]. rewrite Hunder.
    by rewrite _tuple_pop_IndexError by lia.
Qed.

(** X7. With any index outside [0 .. n - 1], negative ones included, the
    constructor leaves both space sequences with all [n] entries while
    [num_agents] becomes [n - 1]. The result then fails the assertion of
    every wrapper that checks the two against each other: it cannot be
    curried again, nor wrapped for vectorised execution. *)
Theorem CurryEnv_index_not_filtered (n : nat) (inv : E → Prop)
    (env : E) (agent : Ag) (agent_idx : Z) :
  n_agent_env n inv → inv env → (1 ≤ n)%nat →
  ¬ (0 ≤ agent_idx < Z.of_nat n) →
  ∃ c, CurryEnv.__init__ env agent agent_idx = Ok c ∧
    c.(CurryEnv.num_agents) = Z.of_nat n - 1 ∧
    c.(CurryEnv.observation_space) = MultiAgentEnv.observation_space env ∧
    c.(CurryEnv.action_space) = MultiAgentEnv.action_space env ∧
    (∀ (agent' : Ag) (idx' : Z), CurryEnv.__init__ c agent' idx' = Err AssertionError) ∧
    _TupleToDict.__init__ c = Err AssertionError.
Proof.
  intros Henv Hinv Hn Hidx.
  pose proof (inv_num_agents n inv Henv env Hinv) as Hnum.
  pose proof (inv_observation_space n inv Henv env Hinv) as Hobs.
  pose proof (inv_action_space n inv Henv env Hinv) as Hact.
  assert (∀ l : list Sp, length l = n → _tuple_space_filter l agent_idx = l) as Hfilter.
  { intros l Hl. destruct (decide (0 ≤ agent_idx)) as [Hpos|Hneg].
    - rewrite _tuple_space_filter_delete by done.
      rewrite delete_take_drop, take_ge, drop_ge by lia. by rewrite app_nil_r.
    - by rewrite _tuple_space_filter_negative by lia. }
  eexists. split; [apply CurryEnv_init_Ok; lia|]. cbn.
  rewrite !Hfilter by done. split_and!; [lia|done|done| |].
  - intros agent' idx'. unfold CurryEnv.__init__, MultiWrapper.__init__,
      getattr_unwrapped_num_agents. cbn.
    rewrite Hact, Hnum.
    rewrite (bool_decide_eq_false_2 (Z.of_nat n = Z.of_nat n - 1)) by lia. done.
  - unfold _TupleToDict.__init__, MultiWrapper.__init__,
      getattr_unwrapped_num_agents. cbn.
    rewrite Hact, Hnum.
    rewrite (bool_decide_eq_false_2 (Z.of_nat n = Z.of_nat n - 1)) by lia. done.
Qed.

(** X8. Currying a valid index of an environment of [n] agents gives an
    environment of [n - 1] agents in the same sense: its states are closed
    under [step] and [reset], [num_agents] and both space sequences say
    [n - 1], and every call that returns gives [n - 1] observations and
    rewards. So the wrapper can be applied to its own result. *)
Theorem CurryEnv_is_n_agent_env (n : nat) (inv : E → Prop) (agent_idx : Z) :
  n_agent_env n inv → 0 ≤ agent_idx < Z.of_nat n →
  @n_agent_env Action Obs Reward Info Sp (CurryEnv.t Obs Reward Sp E Ag)
     CurryEnv.multi_agent_env (n - 1) (curried_inv n inv agent_idx) ∧
  ∀ (env : E) (agent : Ag), inv env →
    ∃ c, CurryEnv.__init__ env agent agent_idx = Ok c ∧ curried_inv n inv agent_idx c.
Proof.
  intros Henv Hidx. split.
  - split; cbn.
    + intros c st actions c' st' r (Hinv & Hfix & Hnum & Hobs & Hact) Hstep.
      destruct (CurryEnv_step_static _ _ _ _ _ _ Hstep) as (Hn' & Ho' & Ha').
      unfold curried_inv. rewrite Hn', Ho', Ha'.
      apply CurryEnv_step_frame in Hstep as [-> [->|(st1 & st2 & r' & Hstep)]];
        [done|].
      split_and!; try done. by eapply (inv_step n inv Henv).
    + intros c c' r (Hinv & Hfix & Hnum & Hobs & Hact) Hreset.
      destruct (CurryEnv_reset_static _ _ _ Hreset) as (Hn' & Ho' & Ha').
      unfold curried_inv. rewrite Hn', Ho', Ha'.
      apply CurryEnv_reset_frame in Hreset as [-> [r' Hreset]].
      split_and!; try done. by eapply (inv_reset n inv Henv).
    + by intros c (_ & _ & Hnum & _).
    + by intros c (_ & _ & _ & Hobs & _).
    + by intros c (_ & _ & _ & _ & Hact).
    + intros c st actions c' st' res (Hinv & _) Hstep.
      by eapply CurryEnv_step_lengths.
    + intros c c' obs (Hinv & _) Hreset. by eapply CurryEnv_reset_length.
  - intros env agent Hinv.
    pose proof (inv_num_agents n inv Henv env Hinv) as Hnum.
    pose proof (inv_observation_space n inv Henv env Hinv) as Hobs.
    pose proof (inv_action_space n inv Henv env Hinv) as Hact.
    eexists. split; [apply CurryEnv_init_Ok; lia|].
    unfold curried_inv. cbn. rewrite !_tuple_space_filter_delete by lia.
    rewrite !length_delete by (apply lookup_lt_is_Some_2; lia).
    split_and!; [done|done|lia|lia|lia].
Qed.

(** X9. The stored observation is set by every [reset] that returns and,
    with the stored reward, by every [step] that returns; once it is set,
    no call, returning or raising, unsets it. *)
Theorem CurryEnv_last_obs_stays_set c :
  (∀ c' obs, CurryEnv.reset c = (c', Ok obs) → is_Some c'.(CurryEnv._last_obs)) ∧
  (∀ st actions c' st' res,
     CurryEnv.step c st actions = (c', st', Ok res) →
     is_Some c'.(CurryEnv._last_obs) ∧ is_Some c'.(CurryEnv._last_reward)) ∧
  (∀ c', reachable c c' → is_Some c.(CurryEnv._last_obs) →
         is_Some c'.(CurryEnv._last_obs)).
Proof.
  split_and!.
  - intros c' obs Hreset. unfold CurryEnv.reset in Hreset.
    repeat case_match; simplify_eq. by eexists.
  - intros st actions c' st' res Hstep. unfold CurryEnv.step in Hstep.
    repeat case_match; simplify_eq. split; by eexists.
  - intros c' Hreach Hset.
    induction Hreach as [|c1 st actions c2 st' r _ IH Hstep|c1 c2 r _ IH Hreset];
      [done| |].
    + unfold CurryEnv.step in Hstep.
      repeat case_match; simplify_eq; cbn; done || by eexists.
    + unfold CurryEnv.reset in Hreset.
      repeat case_match; simplify_eq; cbn; done || by eexists.
Qed.
End curry_further.

Lemma CurryEnv_init_spec_witness :
  CurryEnv.__init__ (mkEcho 3 []) (mkConst 0 0) 1 = Ok echo_curried ∧
  CurryEnv.__init__ (mkEcho 0 []) (mkConst 0 0) 0 = Err AssertionError.
Proof.
  destruct (CurryEnv_init_spec (mkEcho 3 []) (mkConst 0 0) 1) as [Hok _].
  destruct (CurryEnv_init_spec (mkEcho 0 []) (mkConst 0 0) 0) as [_ Herr].
  split.
  - apply Hok. split; [split; reflexivity|]. cbn. lia.
  - apply Herr. intros [_ Hn]. cbn in Hn. lia.
Defined.

Lemma CurryEnv_index_out_of_range_witness :
  ∃ c, CurryEnv.__init__ (mkEcho 3 []) (mkConst 0 0) 5 = Ok c ∧
       (CurryEnv.reset c).2 = Err IndexError.
Proof.
  destruct (CurryEnv_index_out_of_range 3 (λ e, echo_agents e = 3%nat)
              (mkEcho 3 []) (mkConst 0 0) 5) as (c & Hc & Hreset & _).
  - apply echo_n_agent_env.
  - reflexivity.
  - lia.
  - split; by vm_compute.
  - right. lia.
  - exists c. split; [exact Hc|].
    apply (Hreset (mkEcho 3 []) [(0, -1); (1, -1); (2, -1)]). reflexivity.
Defined.

Lemma CurryEnv_index_not_filtered_witness :
  ∃ c, CurryEnv.__init__ (mkEcho 3 []) (mkConst 0 0) (-1) = Ok c ∧
       c.(CurryEnv.num_agents) = 2 ∧
       c.(CurryEnv.action_space) = [Discrete 2; Discrete 2; Discrete 2] ∧
       CurryEnv.__init__ c (mkConst 0 0) 0 = Err AssertionError.
Proof.
  destruct (CurryEnv_index_not_filtered 3 (λ e, echo_agents e = 3%nat)
              (mkEcho 3 []) (mkConst 0 0) (-1)) as (c & Hc & Hnum & _ & Hact & Hcurry & _).
  - apply echo_n_agent_env.
  - reflexivity.
  - lia.
  - lia.
  - exists c. split; [exact Hc|]. split; [exact Hnum|].
    split; [exact Hact|]. apply Hcurry.
Defined.

Lemma CurryEnv_is_n_agent_env_witness :
  n_agent_env 2 (curried_inv 3 (λ e, echo_agents e = 3%nat) 1
                   (Ag:=ConstAgent)) ∧
  ∃ c, CurryEnv.__init__ (mkEcho 3 []) (mkConst 0 0) 1 = Ok c ∧
       curried_inv 3 (λ e, echo_agents e = 3%nat) 1 c.
Proof.
  destruct (CurryEnv_is_n_agent_env (Ag:=ConstAgent) 3 (λ e, echo_agents e = 3%nat) 1)
    as [Henv Hinit].
  - apply echo_n_agent_env.
  - lia.
  - split; [exact Henv|]. apply Hinit. reflexivity.
Defined.

Lemma CurryEnv_last_obs_stays_set_witness :
  is_Some (CurryEnv.reset echo_curried).1.(CurryEnv._last_obs) ∧
  is_Some (CurryEnv.step (CurryEnv.reset echo_curried).1
             {[ 1%positive := [1] ]} 1%positive).1.1.(CurryEnv._last_obs).
Proof.
  destruct (CurryEnv_last_obs_stays_set echo_curried) as (Hreset & _ & _).
  destruct (CurryEnv_last_obs_stays_set (CurryEnv.reset echo_curried).1)
    as (_ & _ & Hkeep).
  assert (is_Some (CurryEnv.reset echo_curried).1.(CurryEnv._last_obs)) as Hset.
  { apply (Hreset _ [(0, -1); (2, -1)]). reflexivity. }
  split; [exact Hset|]. apply Hkeep; [|exact Hset].
  apply (reachable_step _ (CurryEnv.reset echo_curried).1 {[ 1%positive := [1] ]} 1%positive
           _ (CurryEnv.step (CurryEnv.reset echo_curried).1
                {[ 1%positive := [1] ]} 1%positive).1.2
           (CurryEnv.step (CurryEnv.reset echo_curried).1
                {[ 1%positive := [1] ]} 1%positive).2);
    [apply reachable_init|reflexivity].
Defined.

Section curry_twice.
Context `{MultiAgentEnv.t Action Obs Reward Info Sp E}.
Context `{Agent.t Action Obs Ag}.
Implicit Types st : gmap positive (list Action).

(** The store after [step] is the store after the underlying [step]. *)
Lemma CurryEnv_step_store `{MultiAgentEnv.t Action Obs Reward Info Sp E'}
    (c : CurryEnv.t Obs Reward Sp E' Ag) st actions ag a :
  Agent.get_action c.(CurryEnv._agent) c.(CurryEnv._last_obs) = (ag, Ok a) →
  (CurryEnv.step c st actions).1.2
  = (MultiAgentEnv.step c.(CurryEnv.env)
       (<[actions := list_insert_at c.(CurryEnv._agent_to_fix) a (st !!! actions)]> st)
       actions).1.2.
Proof.
  intros Hag. rewrite (CurryEnv_step_unfold _ _ _ _ _ Hag). cbn zeta.
  destruct (MultiAgentEnv.step _ _ _) as [[e' st2] r'].
  by repeat case_match.
Qed.

(** X10. Currying twice, at indices that fit a machine word, inserts twice
    into the caller's list: the outer wrapper inserts its policy's action,
    the inner wrapper inserts its own into the same list object, and the
    environment at the bottom is stepped on that list. If that environment
    leaves it alone, the caller finds its list two elements longer. *)
Theorem CurryEnv_twice_mutates_actions
    (c2 : CurryEnv.t Obs Reward Sp (CurryEnv.t Obs Reward Sp E Ag) Ag)
    st actions (ag2 ag1 : Ag) (a2 a1 : Action) :
  fits_ssize_t c2.(CurryEnv._agent_to_fix) →
  fits_ssize_t c2.(CurryEnv.env).(CurryEnv._agent_to_fix) →
  Agent.get_action c2.(CurryEnv._agent) c2.(CurryEnv._last_obs) = (ag2, Ok a2) →
  Agent.get_action c2.(CurryEnv.env).(CurryEnv._agent)
    c2.(CurryEnv.env).(CurryEnv._last_obs) = (ag1, Ok a1) →
  (MultiAgentEnv.step c2.(CurryEnv.env).(CurryEnv.env)
     (<[actions := list_insert_at c2.(CurryEnv.env).(CurryEnv._agent_to_fix) a1
                     (list_insert_at c2.(CurryEnv._agent_to_fix) a2 (st !!! actions))]> st)
     actions).1.2 !!! actions
  = list_insert_at c2.(CurryEnv.env).(CurryEnv._agent_to_fix) a1
      (list_insert_at c2.(CurryEnv._agent_to_fix) a2 (st !!! actions)) →
  (CurryEnv.step c2 st actions).1.2 !!! actions
  = list_insert_at c2.(CurryEnv.env).(CurryEnv._agent_to_fix) a1
      (list_insert_at c2.(CurryEnv._agent_to_fix) a2 (st !!! actions)) ∧
  length ((CurryEnv.step c2 st actions).1.2 !!! actions)
  = S (S (length (st !!! actions))).
Proof.
  intros _ _ Hag2 Hag1 Hframe.
  rewrite (CurryEnv_step_store c2 st actions ag2 a2 Hag2).
  change (MultiAgentEnv.step c2.(CurryEnv.env)) with (CurryEnv.step c2.(CurryEnv.env)).
  rewrite (CurryEnv_step_store _ _ actions ag1 a1 Hag1).
  rewrite lookup_total_insert_eq, insert_insert_eq.
  split; [done|]. by rewrite Hframe, !length_list_insert_at.
Qed.
End curry_twice.

Lemma CurryEnv_twice_mutates_actions_witness :
  (CurryEnv.step
     (CurryEnv.mk echo_curried 1 [Discrete 2] [Discrete 2] 0 (mkConst 0 0) None None)
     {[ 1%positive := [1] ]} 1%positive).1.2 !!! 1%positive
  = list_insert_at 1 0 (list_insert_at 0 0
      (({[ 1%positive := [1] ]} : gmap positive (list Z)) !!! 1%positive)) ∧
  length ((CurryEnv.step
     (CurryEnv.mk echo_curried 1 [Discrete 2] [Discrete 2] 0 (mkConst 0 0) None None)
     {[ 1%positive := [1] ]} 1%positive).1.2 !!! 1%positive)
  = S (S (length (({[ 1%positive := [1] ]} : gmap positive (list Z)) !!! 1%positive))).
Proof.
  apply (CurryEnv_twice_mutates_actions
           (CurryEnv.mk echo_curried 1 [Discrete 2] [Discrete 2] 0 (mkConst 0 0) None None)
           {[ 1%positive := [1] ]} 1%positive (mkConst 0 1) (mkConst 0 1) 0 0).
  - split; by vm_compute.
  - split; by vm_compute.
  - reflexivity.
  - reflexivity.
  - reflexivity.
Defined.

(** Two wrappers around the three-agent example, the inner one at index
    [0] with the policy that answers [7], the outer one at index [1] with
    the policy that answers [9]: the outer [step] on the list [[5]] returns,
    and the caller's list is then [[7; 5; 9]], two longer, with the outer
    action not at index [1]. *)
Lemma nested_curry_two_insertions :
  ∃ c_in c_out,
    CurryEnv.__init__ (mkEcho 3 []) (mkConst 7 0) 0 = Ok c_in ∧
    CurryEnv.__init__ c_in (mkConst 9 0) 1 = Ok c_out ∧
    is_Ok (CurryEnv.step c_out {[ 1%positive := [5] ]} 1%positive).2 ∧
    (CurryEnv.step c_out {[ 1%positive := [5] ]} 1%positive).1.2 !!! 1%positive
      = [7; 5; 9] ∧
    list_insert_at 1 9 [5] = [5; 9] ∧
    length ((CurryEnv.step c_out {[ 1%positive := [5] ]} 1%positive).1.2 !!! 1%positive)
      ≠ S (length [5]).
Proof.
  eexists _, _. split; [reflexivity|]. split; [reflexivity|].
  split; [by eexists|]. by split_and!.
Qed.

(** ** More on the tuple/dict bridge *)

Section bridge_further.
Context {A : Type}.
Implicit Types (l : list A) (d : gmap Z A).

Lemma dict_keys_empty : dict_keys (∅ : gmap Z A) = [].
Proof. unfold dict_keys. by rewrite map_to_list_empty. Qed.

Lemma _dict_to_tuple_of_empty :
  _dict_to_tuple (_tuple_to_dict ([] : list A)) = Err ValueError.
Proof.
  unfold _dict_to_tuple, _tuple_to_dict, enumerate. cbn [enumerate_from list_to_map foldr].
  by rewrite dict_keys_empty.
Qed.

(** X11. A sequence converted to a mapping and back is the same sequence,
    unless it is empty: the empty mapping has no smallest key, and the
    conversion back raises [ValueError]. *)
Theorem tuple_to_dict_round_trip l :
  _dict_to_tuple (_tuple_to_dict l)
  = match l with [] => Err ValueError | _ :: _ => Ok l end.
Proof.
  destruct l as [|x l]; [apply _dict_to_tuple_of_empty|by apply _dict_to_tuple_to_dict].
Qed.

(** X12. When [_dict_to_tuple] returns a sequence, the mapping was exactly
    the enumeration of that sequence: converting the sequence to a mapping
    gives the mapping back. The sequence is not empty and has one entry
    per key up to the largest. *)
Theorem dict_to_tuple_round_trip d l :
  _dict_to_tuple d = Ok l →
  _tuple_to_dict l = d ∧ l ≠ [] ∧ Z.of_nat (length l) = max_key d + 1.
Proof.
  intros Hd.
  assert (d ≠ ∅) as Hne.
  { intros ->. unfold _dict_to_tuple in Hd. by rewrite dict_keys_empty in Hd. }
  destruct (min_key_spec d Hne) as (Hmin & Hmin_in & Hmin_le).
  destruct (max_key_spec d Hne) as (Hmax & Hmax_in & Hmax_le).
  unfold _dict_to_tuple in Hd. rewrite Hmin in Hd. cbn [mbind result_bind] in Hd.
  case_bool_decide as H0; [|done]. cbn [py_assert mbind result_bind] in Hd.
  rewrite Hmax in Hd. cbn [mbind result_bind] in Hd.
  assert (0 ≤ max_key d) as Hmax0 by (rewrite <-H0; by apply Hmin_le).
  assert (Z.of_nat (length l) = max_key d + 1) as Hlen.
  { rewrite (mapM_Ok_length _ _ _ Hd), length_seqZ. lia. }
  split; [|split; [|done]].
  - apply map_eq. intros k. rewrite lookup_tuple_to_dict. case_decide as Hk.
    + destruct (decide (k ≤ max_key d)) as [Hle|Hgt].
      * assert (seqZ 0 (max_key d + 1) !! Z.to_nat k = Some k) as Hseq
          by (apply lookup_seqZ; lia).
        destruct (mapM_Ok_lookup _ _ _ _ _ Hd Hseq) as (y & -> & Hy).
        unfold dict_getitem in Hy. destruct (d !! k); by simplify_eq.
      * rewrite (proj2 (lookup_ge_None l (Z.to_nat k))) by lia.
        destruct (d !! k) eqn:Hdk; [|done].
        assert (k ≤ max_key d) by (by apply Hmax_le). lia.
    + destruct (d !! k) eqn:Hdk; [|done].
      assert (min_key d ≤ k) by (by apply Hmin_le). lia.
  - intros ->. simpl in Hlen. lia.
Qed.

(** X13. [_tuple_to_dict] keys the sequence by position: the keys are
    exactly [0 .. len - 1], and key [k] holds the element at position
    [k]. *)
Theorem tuple_to_dict_lookup l (k : Z) :
  _tuple_to_dict l !! k = (if decide (0 ≤ k) then l !! Z.to_nat k else None) ∧
  (is_Some (_tuple_to_dict l !! k) ↔ 0 ≤ k < Z.of_nat (length l)).
Proof.
  rewrite lookup_tuple_to_dict. split; [done|]. case_decide.
  - rewrite lookup_lt_is_Some. lia.
  - split; [by intros [? ?]|lia].
Qed.
End bridge_further.

Lemma dict_to_tuple_round_trip_witness :
  _tuple_to_dict [7; 9] = (<[0:=7]> (<[1:=9]> ∅) : gmap Z Z).
Proof.
  apply (dict_to_tuple_round_trip (<[0:=7]> (<[1:=9]> ∅) : gmap Z Z) [7; 9]).
  by vm_compute.
Defined.

(** ** More on [tuple_transpose] *)

Section transpose_further.
Context {A : Type}.
Implicit Types xs ys : list (list A).

Lemma mapM_Err_elem {X Y} (f : X → result Y) (l : list X) e :
  mapM f l = Err e → ∃ x, x ∈ l ∧ f x = Err e.
Proof.
  intros Hl. destruct (mapM_cases f l) as [[k Hk]|(l1 & x & l2 & e' & -> & _ & Hx & He)];
    [congruence|].
  exists x. split; [apply elem_of_app; right; by left|congruence].
Qed.

(** X14. On [a >= 1] rows of equal length [b], [tuple_transpose] returns
    [b] rows of length [a], and the entry at position [(i, j)] of the
    result is the entry at position [(j, i)] of the input. *)
Theorem tuple_transpose_shape xs (a b : nat) :
  rectangular a b xs → (0 < a)%nat →
  ∃ ys, tuple_transpose xs = Ok ys ∧ rectangular b a ys ∧
        ∀ i j, ys !! i ≫= (.!! j) = xs !! j ≫= (.!! i).
Proof. apply tuple_transpose_rectangular. Qed.

(** X15. [tuple_transpose] returns exactly on the sequences with a first
    row and all rows as long as the first. Without a first row it raises
    [IndexError]; with a row of another length it fails the assertion. *)
Theorem tuple_transpose_failures xs :
  (xs = [] → tuple_transpose xs = Err IndexError) ∧
  (∀ x0 rest, xs = x0 :: rest →
     ¬ Forall (λ x, length x = length x0) xs →
     tuple_transpose xs = Err AssertionError) ∧
  (is_Ok (tuple_transpose xs) ↔
   ∃ x0 rest, xs = x0 :: rest ∧ Forall (λ x, length x = length x0) xs).
Proof.
  assert (∀ x0 rest, xs = x0 :: rest →
            ¬ Forall (λ x, length x = length x0) xs →
            tuple_transpose xs = Err AssertionError) as Hragged.
  { intros x0 rest -> Hnot. unfold tuple_transpose.
    cbn [getitem lookup list_lookup mbind result_bind].
    destruct (mapM _ (x0 :: rest)) as [k|e] eqn:Hk.
    - exfalso. apply Hnot. apply mapM_Ok_Forall2 in Hk.
      apply Forall_lookup. intros i x Hx.
      destruct (Forall2_lookup_l _ _ _ _ _ Hk Hx) as (y & _ & Hy).
      by case_bool_decide.
    - apply mapM_Err_elem in Hk as (x & _ & Hx). cbn [mbind result_bind].
      case_bool_decide; [done|]. cbn in Hx. congruence. }
  split_and!; [by intros ->|done|]. split.
  - intros [ys Hys]. destruct xs as [|x0 rest]; [done|].
    exists x0, rest. split; [done|].
    destruct (decide (Forall (λ x, length x = length x0) (x0 :: rest))) as [|Hnot];
      [done|].
    rewrite (Hragged x0 rest eq_refl Hnot) in Hys. done.
  - intros (x0 & rest & -> & Hall).
    destruct (tuple_transpose_rectangular (x0 :: rest) (S (length rest)) (length x0))
      as (ys & Hys & _); [by split|lia|by exists ys].
Qed.
End transpose_further.

Lemma tuple_transpose_shape_witness :
  ∃ ys, tuple_transpose [[1; 2; 3]; [4; 5; 6]] = Ok ys ∧ rectangular 3 2 ys ∧
        ∀ i j, ys !! i ≫= (.!! j) = [[1; 2; 3]; [4; 5; 6]] !! j ≫= (.!! i).
Proof.
  apply (tuple_transpose_shape [[1; 2; 3]; [4; 5; 6]] 2 3).
  - split; [reflexivity|]. repeat constructor.
  - lia.
Defined.

Lemma tuple_transpose_failures_witness :
  tuple_transpose ([] : list (list Z)) = Err IndexError ∧
  tuple_transpose [[1; 2]; [3]] = Err AssertionError ∧
  is_Ok (tuple_transpose [[1; 2]; [3; 4]]).
Proof.
  destruct (tuple_transpose_failures ([] : list (list Z))) as (Hempty & _ & _).
  destruct (tuple_transpose_failures [[1; 2]; [3]]) as (_ & Hragged & _).
  destruct (tuple_transpose_failures [[1; 2]; [3; 4]]) as (_ & _ & Hok).
  split_and!.
  - by apply Hempty.
  - apply (Hragged [1; 2] [[3]] eq_refl). intros Hall.
    apply Forall_cons in Hall as [_ Hall]. apply Forall_cons in Hall as [Hlen _].
    discriminate Hlen.
  - apply Hok. exists [1; 2], [[3; 4]]. split; [reflexivity|]. repeat constructor.
Defined.

(** ** More on the vectorised constructors and their wrappers *)

Section vec_further.
Context `{MultiAgentEnv.t Action Obs Reward Info Sp E}.

Lemma _TupleToDict_init_mismatch (e : E) :
  ¬ spaces_match e → _TupleToDict.__init__ e = Err AssertionError.
Proof.
  intros Hnot. unfold _TupleToDict.__init__, MultiWrapper.__init__,
    getattr_unwrapped_num_agents, spaces_match in *.
  repeat case_bool_decide; try done. tauto.
Qed.

(** X16. When the first factory's environment has no agent, the
    construction fails with [ValueError]: its [Dict] spaces are empty, and
    converting them back to tuples asks for the smallest of no keys. *)
Theorem make_dummy_vec_multi_env_no_agents
    (env_fns : list (() → result E)) (e0 : E) (es : list E) :
  Forall2 (λ fn e, fn () = Ok e) env_fns (e0 :: es) →
  Forall spaces_match (e0 :: es) →
  MultiAgentEnv.num_agents e0 = 0 →
  make_dummy_vec_multi_env env_fns = Err ValueError.
Proof.
  intros Hfns Henvs Hn.
  pose proof (Forall_inv Henvs) as [Ha Ho].
  assert (MultiAgentEnv.action_space e0 = []) as Hacts.
  { destruct (MultiAgentEnv.action_space e0); [done|]. simpl in Ha. lia. }
  unfold make_dummy_vec_multi_env, _make_vec_multi_env,
    _DummyVecMultiEnv.__init__, DummyVecEnv.__init__.
  rewrite (decorated_factories_Ok env_fns (e0 :: es) Hfns Henvs).
  cbn -[_dict_to_tuple _tuple_to_dict]. unfold _DictToTuple.__init__.
  cbn -[_dict_to_tuple _tuple_to_dict].
  by rewrite Hacts, _dict_to_tuple_of_empty.
Qed.

(** X17. The factories are called in order, and the first one that raises,
    or whose environment does not have [num_agents] spaces on both sides,
    decides the outcome: the construction fails with that error (the
    assertion, in the second case), whatever the later factories do. *)
Theorem make_dummy_vec_multi_env_first_failure
    (fns1 fns2 : list (() → result E)) (fn : () → result E) (envs1 : list E) (e : exn) :
  Forall2 (λ fn e, fn () = Ok e) fns1 envs1 →
  Forall spaces_match envs1 →
  fn () = Err e ∨ (∃ env, fn () = Ok env ∧ ¬ spaces_match env ∧ e = AssertionError) →
  make_dummy_vec_multi_env (fns1 ++ fn :: fns2) = Err e.
Proof.
  intros Hfns Henvs Hfn.
  assert (_decorate_tuple_to_dict fn () = Err e) as Hdec.
  { unfold _decorate_tuple_to_dict. destruct Hfn as [->|(env & -> & Hnot & ->)]; [done|].
    cbn [mbind result_bind]. by apply _TupleToDict_init_mismatch. }
  unfold make_dummy_vec_multi_env, _make_vec_multi_env,
    _DummyVecMultiEnv.__init__, DummyVecEnv.__init__.
  rewrite fmap_app, fmap_cons.
  rewrite (mapM_first_Err (λ fn, fn ()) _ _ _ e); [done| |done].
  apply Forall_fmap. apply Forall_forall. intros fn' Hfn'.
  apply list_elem_of_lookup in Hfn' as [i Hi].
  destruct (Forall2_lookup_l _ _ _ _ _ Hfns Hi) as (env & Henv & Hok).
  exists (tuple_to_dict_of env). unfold compose, _decorate_tuple_to_dict.
  rewrite Hok. cbn [mbind result_bind]. apply _TupleToDict_init_Ok.
  by eapply Forall_lookup_1.
Qed.

(** X18. The worker-based constructor reads [num_agents] from one more
    environment made by the first factory: whenever the collaborator that
    starts the workers returns spaces that convert back to tuples, the
    adapter is built with that environment's [num_agents], and no other
    factory's environment is looked at for it. *)
Theorem make_subproc_vec_multi_env_num_agents
    (SubprocVecEnv_init : list (() → result (_TupleToDict.t Sp E)) → result (VecEnv.t Sp))
    (env_fns : list (() → result E)) (fn0 : () → result E) (e0 : E)
    (b : VecEnv.t Sp) (acts obs : list Sp) :
  SubprocVecEnv_init (_decorate_tuple_to_dict <$> env_fns) = Ok b →
  env_fns !! 0%nat = Some fn0 → fn0 () = Ok e0 → spaces_match e0 →
  _dict_to_tuple b.(VecEnv.action_space) = Ok acts →
  _dict_to_tuple b.(VecEnv.observation_space) = Ok obs →
  ∃ v, make_subproc_vec_multi_env SubprocVecEnv_init env_fns = Ok v ∧
       v.(_DictToTuple.num_agents) = MultiAgentEnv.num_agents e0 ∧
       v.(_DictToTuple.num_envs) = b.(VecEnv.num_envs) ∧
       v.(_DictToTuple.action_space) = acts ∧
       v.(_DictToTuple.observation_space) = obs.
Proof.
  intros Hb Hfn0 He0 Hmatch Hacts Hobs.
  unfold make_subproc_vec_multi_env, _make_vec_multi_env, _SubprocVecMultiEnv.__init__.
  rewrite Hb. cbn [mbind result_bind]. unfold getitem.
  rewrite list_lookup_fmap, Hfn0. cbn [fmap option_fmap option_map mbind result_bind].
  unfold _decorate_tuple_to_dict at 1. rewrite He0. cbn [mbind result_bind].
  rewrite (_TupleToDict_init_Ok e0 Hmatch). cbn [mbind result_bind].
  unfold _DictToTuple.__init__, VecMultiEnv.__init__, id.
  cbn [VecMultiEnv.action_space VecMultiEnv.observation_space].
  rewrite Hacts, Hobs. cbn [mbind result_bind]. by eexists.
Qed.

(** X19. What [_TupleToDict] returns for observations converts back to
    what the environment returned, for an environment with at least one
    agent, after [reset] as after [step]; the rewards are passed on
    untouched. *)
Theorem TupleToDict_observations_round_trip (self : _TupleToDict.t Sp E) :
  (∀ e' obs, MultiAgentEnv.reset self.(_TupleToDict.env) = (e', Ok obs) → obs ≠ [] →
     ∃ d, (_TupleToDict.reset self).2 = Ok d ∧ _dict_to_tuple d = Ok obs) ∧
  (∀ (st : gmap positive (list Action)) action e' st' res,
     MultiAgentEnv.step self.(_TupleToDict.env) st action = (e', st', Ok res) →
     res.(observations) ≠ [] →
     ∃ d, (_TupleToDict.step self st action).2
          = Ok (d, res.(rewards), res.(done), res.(infos)) ∧
          _dict_to_tuple d = Ok res.(observations)).
Proof.
  split.
  - intros e' obs Hreset Hobs. exists (_tuple_to_dict obs).
    unfold _TupleToDict.reset. rewrite Hreset. split; [done|].
    by apply _dict_to_tuple_to_dict.
  - intros st action e' st' res Hstep Hobs. exists (_tuple_to_dict res.(observations)).
    unfold _TupleToDict.step. rewrite Hstep. split; [done|].
    by apply _dict_to_tuple_to_dict.
Qed.
End vec_further.

Section step_async.
Context `{VecEnvMethods.t Action ObsV V} {Sp : Type}.
Implicit Types self : _DictToTuple.t Sp V.

(** X20. [step_async] hands the vectorised environment the transpose of
    the agent-major actions: for [a >= 1] agents with [b] actions each,
    [b] sequences of [a] actions, the [j]-th action of agent [i] at
    position [(j, i)]. When the actions cannot be transposed (no agent, or
    agents with different numbers of actions) the call raises and the
    vectorised environment is not called at all. *)
Theorem DictToTuple_step_async_spec self (actions : list (list Action)) :
  (∀ a b, rectangular a b actions → (0 < a)%nat →
     ∃ per_env, rectangular b a per_env ∧
       (∀ i j, per_env !! i ≫= (.!! j) = actions !! j ≫= (.!! i)) ∧
       _DictToTuple.step_async self actions
       = (_DictToTuple.set_venv self
            (VecEnvMethods.step_async self.(_DictToTuple.venv) per_env).1,
          (VecEnvMethods.step_async self.(_DictToTuple.venv) per_env).2)) ∧
  (∀ e, tuple_transpose actions = Err e →
     _DictToTuple.step_async self actions = (self, Err e)).
Proof.
  split.
  - intros a b Hrect Ha.
    destruct (tuple_transpose_rectangular actions a b Hrect Ha) as (ys & Hys & Hr & Hent).
    exists ys. split; [done|]. split; [done|].
    unfold _DictToTuple.step_async. rewrite Hys.
    by destruct (VecEnvMethods.step_async _ _).
  - intros e He. unfold _DictToTuple.step_async. by rewrite He.
Qed.
End step_async.

Lemma make_dummy_vec_multi_env_no_agents_witness :
  make_dummy_vec_multi_env [λ _, Ok (mkEcho 0 []); λ _, Ok (mkEcho 3 [])]
  = Err ValueError.
Proof.
  refine (@make_dummy_vec_multi_env_no_agents _ _ _ _ _ _ echo_env
            [λ _, Ok (mkEcho 0 []); λ _, Ok (mkEcho 3 [])] (mkEcho 0 []) [mkEcho 3 []]
            _ _ _).
  - repeat constructor.
  - repeat constructor.
  - reflexivity.
Defined.

Lemma make_dummy_vec_multi_env_first_failure_witness :
  make_dummy_vec_multi_env
    [λ _, Ok (mkEcho 2 []); λ _, Err (Raised 7); λ _, Ok (mkEcho 2 [])]
  = Err (Raised 7).
Proof.
  refine (@make_dummy_vec_multi_env_first_failure _ _ _ _ _ _ echo_env
            [λ _, Ok (mkEcho 2 [])] [λ _, Ok (mkEcho 2 [])] (λ _, Err (Raised 7))
            [mkEcho 2 []] (Raised 7) _ _ _).
  - repeat constructor.
  - repeat constructor.
  - left. reflexivity.
Defined.

Lemma make_subproc_vec_multi_env_num_agents_witness :
  ∃ v, make_subproc_vec_multi_env first_env_spaces
         [λ _, Ok (mkEcho 2 []); λ _, Ok (mkEcho 3 [])] = Ok v ∧
       v.(_DictToTuple.num_agents) = 2 ∧
       v.(_DictToTuple.num_envs) = 2%nat ∧
       v.(_DictToTuple.action_space) = [Discrete 2; Discrete 2] ∧
       v.(_DictToTuple.observation_space) = [Discrete 2; Discrete 2].
Proof.
  refine (@make_subproc_vec_multi_env_num_agents _ _ _ _ _ _ echo_env first_env_spaces
            [λ _, Ok (mkEcho 2 []); λ _, Ok (mkEcho 3 [])] (λ _, Ok (mkEcho 2 []))
            (mkEcho 2 [])
            (VecEnv.mk 2 (_tuple_to_dict [Discrete 2; Discrete 2])
                         (_tuple_to_dict [Discrete 2; Discrete 2]))
            [Discrete 2; Discrete 2] [Discrete 2; Discrete 2] _ _ _ _ _ _).
  - reflexivity.
  - reflexivity.
  - reflexivity.
  - split; reflexivity.
  - by vm_compute.
  - by vm_compute.
Defined.

Lemma TupleToDict_observations_round_trip_witness :
  ∃ d, (_TupleToDict.reset (tuple_to_dict_of (mkEcho 2 []))).2 = Ok d ∧
       _dict_to_tuple d = Ok [(0, -1); (1, -1)].
Proof.
  destruct (TupleToDict_observations_round_trip (tuple_to_dict_of (mkEcho 2 [])))
    as [Hreset _].
  apply (Hreset (mkEcho 2 [])); [reflexivity|done].
Defined.

Lemma DictToTuple_step_async_spec_witness :
  _DictToTuple.step_async
    (_DictToTuple.mk (mkLogVenv []) 3 2 [Discrete (float:=Empty_set) 2; Discrete 2]
                     [Discrete 2; Discrete 2])
    [[1; 2; 3]; [4; 5; 6]]
  = (_DictToTuple.mk (mkLogVenv [[[1; 4]; [2; 5]; [3; 6]]]) 3 2
       [Discrete 2; Discrete 2] [Discrete 2; Discrete 2], Ok ()) ∧
  _DictToTuple.step_async
    (_DictToTuple.mk (mkLogVenv []) 3 2 [Discrete (float:=Empty_set) 2; Discrete 2]
                     [Discrete 2; Discrete 2])
    [[1; 2; 3]; [4; 5]]
  = (_DictToTuple.mk (mkLogVenv []) 3 2 [Discrete 2; Discrete 2] [Discrete 2; Discrete 2],
     Err AssertionError).
Proof.
  split.
  - destruct (DictToTuple_step_async_spec
                (_DictToTuple.mk (mkLogVenv []) 3 2
                   [Discrete (float:=Empty_set) 2; Discrete 2] [Discrete 2; Discrete 2])
                [[1; 2; 3]; [4; 5; 6]]) as [Hok _].
    destruct (Hok 2%nat 3%nat) as (per_env & _ & _ & Hstep).
    + split; [reflexivity|]. repeat constructor.
    + lia.
    + reflexivity.
  - apply (DictToTuple_step_async_spec
             (_DictToTuple.mk (mkLogVenv []) 3 2
                [Discrete (float:=Empty_set) 2; Discrete 2] [Discrete 2; Discrete 2])
             [[1; 2; 3]; [4; 5]]).
    reflexivity.
Defined.

(** ** The single-agent wrappers *)

Section flatten_multi_further.
Context {float : Type}.
Context `{MultiAgentEnv.t (Value float) (Value float) Reward Info (Space float) E}.

(** X21. [FlattenMultiEnv] cannot be constructed: its first statement
    calls [flatten_space] on the observation spaces, which raises
    [NameError], or [KeyError] when there is no space at all. *)
Theorem FlattenMultiEnv_init_error (env : E) (reward_agg : list Reward → Reward) :
  FlattenMultiEnv.__init__ env reward_agg
  = Err (match MultiAgentEnv.observation_space env with
         | [] => KeyErrorEmptySet
         | _ :: _ => NameError
         end).
Proof.
  unfold FlattenMultiEnv.__init__.
  by destruct (MultiAgentEnv.observation_space env).
Qed.
End flatten_multi_further.

Section flatten_singleton.
Context `{MultiAgentEnv.t Action Obs Reward Info Sp E}.
Context `{Agent.t Action Obs Ag}.

(** X22. [FlattenSingletonEnv] accepts exactly the environments with
    [num_agents = 1] and a first space on both sides, and takes those first
    spaces as its own. Another [num_agents] fails the assertion; with
    [num_agents = 1] and no observation space, or no action space, the
    subscript raises [IndexError]. *)
Theorem FlattenSingletonEnv_init_spec (env : E) :
  (MultiAgentEnv.num_agents env ≠ 1 →
   FlattenSingletonEnv.__init__ env = Err AssertionError) ∧
  (∀ o os a acts,
     MultiAgentEnv.num_agents env = 1 →
     MultiAgentEnv.observation_space env = o :: os →
     MultiAgentEnv.action_space env = a :: acts →
     FlattenSingletonEnv.__init__ env = Ok (FlattenSingletonEnv.mk env o a)) ∧
  (MultiAgentEnv.num_agents env = 1 →
   MultiAgentEnv.observation_space env = [] →
   FlattenSingletonEnv.__init__ env = Err IndexError) ∧
  (MultiAgentEnv.num_agents env = 1 →
   MultiAgentEnv.action_space env = [] →
   FlattenSingletonEnv.__init__ env = Err IndexError) ∧
  (is_Ok (FlattenSingletonEnv.__init__ env) ↔
   MultiAgentEnv.num_agents env = 1 ∧
   MultiAgentEnv.observation_space env ≠ [] ∧
   MultiAgentEnv.action_space env ≠ []).
Proof.
  unfold FlattenSingletonEnv.__init__. split_and!.
  - intros Hn. by rewrite bool_decide_eq_false_2.
  - intros o os a acts Hn Ho Ha. rewrite bool_decide_eq_true_2 by done.
    by rewrite Ho, Ha.
  - intros Hn Ho. rewrite bool_decide_eq_true_2 by done. by rewrite Ho.
  - intros Hn Ha. rewrite bool_decide_eq_true_2 by done. rewrite Ha.
    by destruct (MultiAgentEnv.observation_space env).
  - case_bool_decide as Hn.
    + destruct (MultiAgentEnv.observation_space env) as [|o os],
               (MultiAgentEnv.action_space env) as [|a acts]; cbn.
      * split; [by intros [? ?]|by intros (_ & ? & _)].
      * split; [by intros [? ?]|by intros (_ & ? & _)].
      * split; [by intros [? ?]|by intros (_ & _ & ?)].
      * split; [done|by eexists].
    + cbn. split; [by intros [? ?]|by intros [? _]].
Qed.

(** X23. A two-agent environment curried at index [0] or [1] can be
    wrapped by [FlattenSingletonEnv]. Its [step] on a single action makes
    a new list holding that action, the curried environment inserts the
    policy's action at the curried index, the underlying environment is
    stepped on the resulting pair, and the call returns the observation
    and the reward of the agent that was not curried. *)
Theorem FlattenSingletonEnv_over_CurryEnv (inv : E → Prop)
    (env : E) (agent : Ag) (agent_idx : Z) :
  n_agent_env 2 inv → inv env → 0 ≤ agent_idx < 2 →
  ∃ c f,
    CurryEnv.__init__ env agent agent_idx = Ok c ∧
    FlattenSingletonEnv.__init__ c = Ok f ∧
    ∀ (st : gmap positive (list Action)) (action : Action) ag a e' st' res,
      Agent.get_action agent None = (ag, Ok a) →
      MultiAgentEnv.step env
        (<[fresh (dom st) := list_insert_at agent_idx a [action]]> st) (fresh (dom st))
        = (e', st', Ok res) →
      ∃ o rw,
        res.(observations) !! Z.to_nat (1 - agent_idx) = Some o ∧
        res.(rewards) !! Z.to_nat (1 - agent_idx) = Some rw ∧
        (FlattenSingletonEnv.step f st action).2 = Ok (o, rw, res.(done), res.(infos)).
Proof.
  intros Henv Hinv Hidx.
  pose proof (inv_num_agents 2 inv Henv env Hinv) as Hnum.
  pose proof (inv_observation_space 2 inv Henv env Hinv) as Hobs.
  pose proof (inv_action_space 2 inv Henv env Hinv) as Hact.
  destruct (MultiAgentEnv.observation_space env) as [|s0 [|s1 [|]]] eqn:Hos;
    try discriminate Hobs.
  destruct (MultiAgentEnv.action_space env) as [|t0 [|t1 [|]]] eqn:Has;
    try discriminate Hact.
  assert (∃ s t, _tuple_space_filter [s0; s1] agent_idx = [s] ∧
                 _tuple_space_filter [t0; t1] agent_idx = [t]) as (s & t & Hs & Ht).
  { rewrite !_tuple_space_filter_delete by lia.
    assert (agent_idx = 0 ∨ agent_idx = 1) as [->| ->] by lia; by eexists _, _. }
  eexists _, (FlattenSingletonEnv.mk _ s t). split.
  { apply CurryEnv_init_Ok; rewrite ?Hos, ?Has, ?Hnum; cbn; lia. }
  split.
  { unfold FlattenSingletonEnv.__init__. cbn.
    rewrite Hnum, Hos, Has, Hs, Ht. by rewrite bool_decide_eq_true_2 by lia. }
  intros st action ag a e' st' res Hag Hunder.
  destruct (inv_step_lengths 2 inv Henv _ _ _ _ _ _ Hinv Hunder) as [Hlo Hlr].
  destruct (observations res) as [|o0 [|o1 [|]]] eqn:Hro; try discriminate Hlo.
  destruct (rewards res) as [|r0 [|r1 [|]]] eqn:Hrr; try discriminate Hlr.
  unfold FlattenSingletonEnv.step.
  cbn [FlattenSingletonEnv.env MultiAgentEnv.step CurryEnv.multi_agent_env].
  rewrite (CurryEnv_step_unfold _ _ _ ag a) by done. cbn zeta.
  cbn [CurryEnv._agent_to_fix CurryEnv.env].
  rewrite lookup_total_insert_eq, insert_insert_eq, Hunder, Hro, Hrr.
  assert (agent_idx = 0 ∨ agent_idx = 1) as [->| ->] by lia.
  - exists o1, r1. by split_and!.
  - exists o0, r0. by split_and!.
Qed.
End flatten_singleton.

Lemma FlattenSingletonEnv_init_spec_witness :
  FlattenSingletonEnv.__init__ (mkEcho 3 []) = Err AssertionError ∧
  FlattenSingletonEnv.__init__ (mkEcho 1 [])
  = Ok (FlattenSingletonEnv.mk (mkEcho 1 []) (Discrete 2) (Discrete 2)) ∧
  FlattenSingletonEnv.__init__
    (CurryEnv.mk (mkEcho 2 []) 1 [Discrete 2] [] 0 (mkConst 0 0) None None)
  = Err IndexError ∧
  is_Ok (FlattenSingletonEnv.__init__ (mkEcho 1 [])).
Proof.
  destruct (FlattenSingletonEnv_init_spec (mkEcho 3 [])) as (Hbad & _).
  destruct (FlattenSingletonEnv_init_spec (mkEcho 1 [])) as (_ & Hok & _ & _ & Hiff).
  destruct (FlattenSingletonEnv_init_spec
              (CurryEnv.mk (mkEcho 2 []) 1 [Discrete 2] [] 0 (mkConst 0 0) None None))
    as (_ & _ & _ & Hnoact & _).
  split_and!.
  - apply Hbad. cbn. lia.
  - apply (Hok (Discrete 2) [] (Discrete 2) []); reflexivity.
  - apply Hnoact; reflexivity.
  - apply Hiff. split_and!; [reflexivity|discriminate|discriminate].
Defined.

Lemma FlattenSingletonEnv_over_CurryEnv_witness :
  ∃ c f,
    CurryEnv.__init__ (mkEcho 2 []) (mkConst 0 0) 0 = Ok c ∧
    FlattenSingletonEnv.__init__ c = Ok f ∧
    (FlattenSingletonEnv.step f ∅ 1).2 = Ok ((1, 1), 10, false, ()).
Proof.
  destruct (FlattenSingletonEnv_over_CurryEnv (λ e, echo_agents e = 2%nat)
              (mkEcho 2 []) (mkConst 0 0) 0) as (c & f & Hc & Hf & Hstep).
  - apply echo_n_agent_env.
  - reflexivity.
  - lia.
  - exists c, f. split; [exact Hc|]. split; [exact Hf|].
    destruct (Hstep ∅ 1 (mkConst 0 1) 0 (mkEcho 2 [[0; 1]])
                (<[fresh (dom (∅ : gmap positive (list Z))) := [0; 1]]> ∅)
                (mkStep [(0, 0); (1, 1)] [0; 10] false ()))
      as (o & rw & Ho & Hrw & Hres).
    + reflexivity.
    + by vm_compute.
    + cbn in Ho, Hrw. injection Ho as <-. injection Hrw as <-. exact Hres.
Defined.

Lemma tuple_to_dict_lookup_witness :
  is_Some (_tuple_to_dict [7; 9] !! 1) ∧ _tuple_to_dict [7; 9] !! 2 = None.
Proof.
  destruct (tuple_to_dict_lookup [7; 9] 1) as [_ Hdom].
  destruct (tuple_to_dict_lookup [7; 9] 2) as [Hlook _].
  split; [apply Hdom; simpl; lia|exact Hlook].
Defined.
